(** * Tuzla Guide backend: the [TuzlaGuide] actor of [src/backend/main.mo]

    A shallow embedding of the Motoko actor that keeps the four record
    stores (attractions, reviews, users, payments) and the two id counters,
    followed by the properties of its operations.

    The actor's mutable fields become one [State] record that every
    operation takes and returns.  What an operation reads from the platform
    (the actor's own principal, the principal of the remote caller and the
    system time of the message being executed) is gathered in [Env]. *)

From Stdlib Require Import ZArith NArith Floats String Ascii List DecimalString.
From Stdlib Require DecimalFacts DecimalN DecimalPos.
From stdpp Require Import gmap strings list fin_maps.
Import ListNotations.

Set Warnings "-inexact-float".

Local Open Scope string_scope.
Local Open Scope N_scope.

(** ** The parts of the Motoko base library the actor uses *)

(** [Text] is a sequence of Unicode characters; it is modelled by its UTF-8
    bytes.  UTF-8 is self-synchronising, so one well-formed text occurs in
    another as a run of characters exactly when it occurs as a run of bytes. *)
Abbreviation Text := string (only parsing).

(** A [Principal] is an opaque identifier; it is kept in its textual form. *)
Abbreviation Principal := string (only parsing).

(** [Time.Time] is [Int]: nanoseconds since the epoch. *)
Abbreviation Time := Z (only parsing).

Abbreviation AttractionId := N (only parsing).
Abbreviation ReviewId := N (only parsing).
Abbreviation PaymentId := string (only parsing).

(** [Result.Result<Ok, Err>]. *)
Inductive Result (Ok Err : Type) : Type :=
| ok : Ok -> Result Ok Err
| err : Err -> Result Ok Err.
Arguments ok {Ok Err} _.
Arguments err {Ok Err} _.

(** [Text.concat]. *)
Definition Text_concat (a b : Text) : Text := a ++ b.

(** [Text.toLowerCase] is a primitive of the platform: it lowercases
    according to Unicode, and its tables are not part of this repository.
    The actor is therefore modelled over any function that, like the
    primitive, turns the letters A to Z into a to z on texts made of ASCII
    characters only; nothing is assumed about what it does to other texts. *)
Definition Char_toLower (c : ascii) : ascii :=
  let n := N_of_ascii c in
  if (65 <=? n) && (n <=? 90) then ascii_of_N (n + 32) else c.

Fixpoint asciiLowerCase (t : Text) : Text :=
  match t with
  | EmptyString => EmptyString
  | String c t' => String (Char_toLower c) (asciiLowerCase t')
  end.

Fixpoint isAsciiText (t : Text) : bool :=
  match t with
  | EmptyString => true
  | String c t' => (N_of_ascii c <? 128) && isAsciiText t'
  end.

Class TextCase := {
  Text_toLowerCase : Text -> Text;
  Text_toLowerCase_ascii :
    forall t, isAsciiText t = true -> Text_toLowerCase t = asciiLowerCase t
}.

(** The lowercasing that touches the letters A to Z only, on every text;
    it serves to run the actor on sample data. *)
Definition asciiCase : TextCase :=
  {| Text_toLowerCase := asciiLowerCase;
     Text_toLowerCase_ascii := fun t _ => eq_refl |}.

(** The matcher of a [#text p] pattern at the head of the input. *)
Fixpoint Text_startsWith (t p : Text) : bool :=
  match p, t with
  | EmptyString, _ => true
  | String _ _, EmptyString => false
  | String d p', String c t' => Ascii.eqb c d && Text_startsWith t' p'
  end.

(** [Text.contains(t, #text p)]: the matcher is tried at the head of the
    input, and on failure one character is dropped and it is tried again. *)
Fixpoint Text_contains (t p : Text) : bool :=
  Text_startsWith t p
  || match t with
     | EmptyString => false
     | String _ t' => Text_contains t' p
     end.

(** [Nat.toText]: the decimal numeral. *)
Definition Nat_toText (n : N) : Text := NilEmpty.string_of_uint (N.to_uint n).

(** [Int.abs]. *)
Definition Int_abs (z : Z) : N := Z.abs_N z.

(** [Float.fromInt]: the binary64 number nearest to the integer. *)
Definition Float_fromInt (z : Z) : float :=
  SF2Prim (binary_normalize prec emax z 0 false).

(** [Trie.put] returns the updated trie and the value it replaced, if any;
    [Trie.get] looks a key up; [Trie.iter] enumerates the entries, in an
    order the callers must not rely on. *)
Definition Trie_put `{Countable K} {V} (t : gmap K V) (k : K) (v : V)
  : gmap K V * option V := (<[k := v]> t, t !! k).

Definition Trie_get `{Countable K} {V} (t : gmap K V) (k : K) : option V :=
  t !! k.

Definition Trie_iter `{Countable K} {V} (t : gmap K V) : list (K * V) :=
  map_to_list t.

(** [List.some] and [List.foldl] on the base library's immutable lists;
    [List.push] is [cons] and [List.size] is [length]. *)
Definition List_some {A} (l : list A) (f : A -> bool) : bool := existsb f l.

Definition List_foldl {A B} (l : list A) (a : B) (f : B -> A -> B) : B :=
  fold_left f l a.

(** ** The actor's types *)

Record Location := { latitude : float; longitude : float }.

Module Attraction.
Record t := mk {
  id : AttractionId;
  name : Text;
  description : Text;
  location : Location;
  category : Text;
  imageUrl : Text;
  audioUrl : Text;
  rating : float;
  price : N;
  languages : list Text;
  tags : list Text;
  createdAt : Time;
  updatedAt : Time
}.
End Attraction.

Module Review.
Record t := mk {
  id : ReviewId;
  attractionId : AttractionId;
  userId : Principal;
  rating : N;
  comment : Text;
  photos : list Text;
  createdAt : Time
}.
End Review.

Module UserProfile.
Record t := mk {
  id : Principal;
  username : Text;
  email : Text;
  preferredLanguage : Text;
  visitedAttractions : list AttractionId;
  favoriteAttractions : list AttractionId;
  totalSpent : N;
  createdAt : Time
}.
End UserProfile.

Module PaymentTransaction.
Record t := mk {
  id : PaymentId;
  userId : Principal;
  attractionId : AttractionId;
  amount : N;
  currency : Text;
  paymentMethod : Text;
  status : Text;
  qrCodeData : Text;
  createdAt : Time
}.
End PaymentTransaction.

(** The actor's state: the four tries and the two counters. *)
Record State := mkState {
  attractions : gmap N Attraction.t;
  reviews : gmap N Review.t;
  users : gmap string UserProfile.t;
  payments : gmap string PaymentTransaction.t;
  nextAttractionId : AttractionId;
  nextReviewId : ReviewId
}.

(** What the platform supplies to one message execution: [this] is the
    actor's own principal ([Principal.fromActor(this)]), [caller] is the
    principal of whoever sent the message, and [now] is [Time.now()], which
    is constant while one message is executed. *)
Record Env := mkEnv {
  this : Principal;
  caller : Principal;
  now : Time
}.

(** ** The actor *)

Definition set_attractions (v : gmap N Attraction.t) (s : State) : State :=
  mkState v (reviews s) (users s) (payments s) (nextAttractionId s) (nextReviewId s).

Definition set_reviews (v : gmap N Review.t) (s : State) : State :=
  mkState (attractions s) v (users s) (payments s) (nextAttractionId s) (nextReviewId s).

Definition set_users (v : gmap string UserProfile.t) (s : State) : State :=
  mkState (attractions s) (reviews s) v (payments s) (nextAttractionId s) (nextReviewId s).

Definition set_payments (v : gmap string PaymentTransaction.t) (s : State) : State :=
  mkState (attractions s) (reviews s) (users s) v (nextAttractionId s) (nextReviewId s).

Definition set_nextAttractionId (v : AttractionId) (s : State) : State :=
  mkState (attractions s) (reviews s) (users s) (payments s) v (nextReviewId s).

Definition set_nextReviewId (v : ReviewId) (s : State) : State :=
  mkState (attractions s) (reviews s) (users s) (payments s) (nextAttractionId s) v.

(** The initialisers of the six field declarations. *)
Definition initialFields : State := mkState ∅ ∅ ∅ ∅ 0 0.

Definition sampleAttractions (e : Env) : list Attraction.t :=
  [ Attraction.mk 0 "Panonsko Jezero"
      "The famous salt lake in the heart of Tuzla, perfect for swimming and relaxation."
      {| latitude := 44.5387; longitude := 18.6766 |}
      "natural" "/images/panonsko-jezero.jpg" "/audio/panonsko-jezero-guide.mp3"
      4.8 500 ["en"; "bs"; "de"] ["lake"; "swimming"; "salt-water"; "family"]
      (now e) (now e);
    Attraction.mk 1 "Gradska Tržnica Tuzla"
      "Historic city market offering local produce and traditional crafts."
      {| latitude := 44.5417; longitude := 18.6739 |}
      "historical" "/images/trznica.jpg" "/audio/trznica-guide.mp3"
      4.5 0 ["en"; "bs"; "de"; "hr"] ["market"; "shopping"; "local"; "historical"]
      (now e) (now e);
    Attraction.mk 2 "Muzej Soli Tuzla"
      "Salt Museum showcasing Tuzla's rich salt mining history."
      {| latitude := 44.5400; longitude := 18.6750 |}
      "museum" "/images/muzej-soli.jpg" "/audio/muzej-soli-guide.mp3"
      4.7 300 ["en"; "bs"; "de"; "hr"; "sr"] ["museum"; "history"; "salt"; "educational"]
      (now e) (now e);
    Attraction.mk 3 "Kapija Graduša"
      "Historic gate and cultural landmark in the old town."
      {| latitude := 44.5420; longitude := 18.6720 |}
      "historical" "/images/kapija-gradusa.jpg" "/audio/kapija-gradusa-guide.mp3"
      4.3 0 ["en"; "bs"; "de"] ["historical"; "gate"; "architecture"; "photo-spot"]
      (now e) (now e);
    Attraction.mk 4 "Restoran Dvorište"
      "Traditional Bosnian restaurant with authentic local cuisine."
      {| latitude := 44.5395; longitude := 18.6745 |}
      "restaurant" "/images/dvoriste.jpg" "/audio/dvoriste-guide.mp3"
      4.6 2500 ["en"; "bs"; "de"; "hr"] ["restaurant"; "traditional"; "bosnian"; "dining"]
      (now e) (now e) ].

(** [initSampleData]: every sample attraction is put under its own id and
    the attraction counter is advanced once per sample. *)
Definition initSampleData (e : Env) (s : State) : State :=
  fold_left
    (fun s attraction =>
       let s := set_attractions
                  (fst (Trie_put (attractions s) (Attraction.id attraction) attraction)) s in
       set_nextAttractionId (nextAttractionId s + 1) s)
    (sampleAttractions e) s.



(** The body of the actor as the platform runs it on a fresh process
    image: the six field declarations are initialised and then the
    initialisation block at the end of the actor seeds the catalog. *)
Definition init (e : Env) : State := initSampleData e initialFields.



Definition getAttractions (s : State) : list Attraction.t :=
  fold_left (fun result '(id, attraction) => attraction :: result)
    (Trie_iter (attractions s)) [].

Definition getAttraction (s : State) (id : AttractionId) : option Attraction.t :=
  Trie_get (attractions s) id.

(** The body of the loop of [searchAttractions] for one attraction. *)
Definition searchMatches {textCase : TextCase} (lowerQuery : Text) (category language : option Text)
    (attraction : Attraction.t) : bool :=
  let matches := true in
  let matches :=
    if negb (Text_contains (Text_toLowerCase (Attraction.name attraction)) lowerQuery
             || Text_contains (Text_toLowerCase (Attraction.description attraction)) lowerQuery
             || List_some (Attraction.tags attraction)
                  (fun tag => Text_contains (Text_toLowerCase tag) lowerQuery))
    then false else matches in
  let matches :=
    match category with
    | Some cat =>
        if negb (String.eqb (Attraction.category attraction) cat) then false else matches
    | None => matches
    end in
  let matches :=
    match language with
    | Some lang =>
        if negb (List_some (Attraction.languages attraction) (fun l => String.eqb l lang))
        then false else matches
    | None => matches
    end in
  matches.

Definition searchAttractions {textCase : TextCase} (s : State) (query : Text)
    (category language : option Text)
  : list Attraction.t :=
  let lowerQuery := Text_toLowerCase query in
  fold_left
    (fun results '(id, attraction) =>
       if searchMatches lowerQuery category language attraction
       then attraction :: results else results)
    (Trie_iter (attractions s)) [].

Definition getReviews (s : State) (attractionId : AttractionId) : list Review.t :=
  fold_left
    (fun result '(id, review) =>
       if Review.attractionId review =? attractionId then review :: result else result)
    (Trie_iter (reviews s)) [].

Definition getReviewsInternal (s : State) (attractionId : AttractionId) : list Review.t :=
  fold_left
    (fun result '(id, review) =>
       if Review.attractionId review =? attractionId then review :: result else result)
    (Trie_iter (reviews s)) [].

(** The review record that [addReview] builds. *)
Definition newReview (e : Env) (s : State) (attractionId : AttractionId) (rating : N)
    (comment : Text) (photos : list Text) : Review.t :=
  Review.mk (nextReviewId s) attractionId (this e) rating comment photos (now e).

(** The state of [addReview] once the counter is advanced and the review
    is put, before the rating is recomputed. *)
Definition addReview_stored (e : Env) (s : State) (attractionId : AttractionId)
    (rating : N) (comment : Text) (photos : list Text) : State :=
  let reviewId := nextReviewId s in
  let review := newReview e s attractionId rating comment photos in
  let s := set_nextReviewId (nextReviewId s + 1) s in
  set_reviews (fst (Trie_put (reviews s) reviewId review)) s.

(** The sum and the quotient of the rating recomputation. *)
Definition totalRating (allReviews : list Review.t) : N :=
  List_foldl allReviews 0 (fun acc r => acc + Review.rating r).

Definition meanRating (allReviews : list Review.t) : float :=
  (Float_fromInt (Z.of_N (totalRating allReviews))
   / Float_fromInt (Z.of_nat (length allReviews)))%float.

Definition withRating (attraction : Attraction.t) (newRating : float) (t : Time)
  : Attraction.t :=
  Attraction.mk (Attraction.id attraction) (Attraction.name attraction)
    (Attraction.description attraction) (Attraction.location attraction)
    (Attraction.category attraction) (Attraction.imageUrl attraction)
    (Attraction.audioUrl attraction) newRating (Attraction.price attraction)
    (Attraction.languages attraction) (Attraction.tags attraction)
    (Attraction.createdAt attraction) t.

Definition addReview (e : Env) (s : State) (attractionId : AttractionId) (rating : N)
    (comment : Text) (photos : list Text) : Result ReviewId Text * State :=
  if (rating <? 1) || (5 <? rating) then
    (err "Rating must be between 1 and 5", s)
  else
    match Trie_get (attractions s) attractionId with
    | None => (err "Attraction not found", s)
    | Some attraction =>
        let reviewId := nextReviewId s in
        let s := addReview_stored e s attractionId rating comment photos in
        let allReviews := getReviewsInternal s attractionId in
        let newRating := meanRating allReviews in
        let updatedAttraction := withRating attraction newRating (now e) in
        let s := set_attractions
                   (fst (Trie_put (attractions s) attractionId updatedAttraction)) s in
        (ok reviewId, s)
    end.

(** [generatePaymentId]: the text is made of the system time and of that
    same time modulo 10000.  The source hands the [Int] timestamp to
    [Nat.toText]; the system time is never negative and the model takes
    its magnitude. *)
Definition generatePaymentId (e : Env) : PaymentId :=
  let timestamp := now e in
  let random := Int_abs (Z.rem (now e) 10000) in
  Text_concat "tx_" (Text_concat (Nat_toText (Int_abs timestamp)) (Nat_toText random)).

(** [generateQRCodeData]: [description] is built and not used. *)
Definition generateQRCodeData (attractionName : Text) (amount : N) (currency : Text) : Text :=
  let description := Text_concat "Tuzla Guide - " attractionName in
  let amountText := Nat_toText amount in
  Text_concat "nowpayments:" (Text_concat amountText (Text_concat "-" currency)).

Definition createPayment (e : Env) (s : State) (attractionId : AttractionId) (amount : N)
    (currency paymentMethod : Text) : Result PaymentTransaction.t Text * State :=
  let userId := this e in
  match Trie_get (attractions s) attractionId with
  | None => (err "Attraction not found", s)
  | Some attraction =>
      let paymentId := generatePaymentId e in
      let qrCodeData := generateQRCodeData (Attraction.name attraction) amount currency in
      let payment :=
        PaymentTransaction.mk paymentId userId attractionId amount currency paymentMethod
          "pending" qrCodeData (now e) in
      let s := set_payments (fst (Trie_put (payments s) paymentId payment)) s in
      (ok payment, s)
  end.

Definition withStatus (payment : PaymentTransaction.t) (status : Text)
  : PaymentTransaction.t :=
  PaymentTransaction.mk (PaymentTransaction.id payment) (PaymentTransaction.userId payment)
    (PaymentTransaction.attractionId payment) (PaymentTransaction.amount payment)
    (PaymentTransaction.currency payment) (PaymentTransaction.paymentMethod payment)
    status (PaymentTransaction.qrCodeData payment) (PaymentTransaction.createdAt payment).

Definition updatePaymentStatus (s : State) (paymentId : PaymentId) (status : Text)
  : Result unit Text * State :=
  match Trie_get (payments s) paymentId with
  | None => (err "Payment not found", s)
  | Some payment =>
      let updatedPayment := withStatus payment status in
      let s := set_payments (fst (Trie_put (payments s) paymentId updatedPayment)) s in
      (ok tt, s)
  end.

Definition getUserProfile (e : Env) (s : State) : option UserProfile.t :=
  let userId := this e in
  Trie_get (users s) userId.

Definition updateUserProfile (e : Env) (s : State) (username email preferredLanguage : Text)
  : State :=
  let userId := this e in
  let now := now e in
  let profile :=
    match Trie_get (users s) userId with
    | None => UserProfile.mk userId username email preferredLanguage [] [] 0 now
    | Some existing =>
        UserProfile.mk (UserProfile.id existing) username email preferredLanguage
          (UserProfile.visitedAttractions existing)
          (UserProfile.favoriteAttractions existing)
          (UserProfile.totalSpent existing) (UserProfile.createdAt existing)
    end in
  set_users (fst (Trie_put (users s) userId profile)) s.

(** ** The states the service can be in *)

(** One update call of the public interface. *)
Inductive Call :=
| CallAddReview (attractionId : AttractionId) (rating : N) (comment : Text)
    (photos : list Text)
| CallCreatePayment (attractionId : AttractionId) (amount : N) (currency paymentMethod : Text)
| CallUpdatePaymentStatus (paymentId : PaymentId) (status : Text)
| CallUpdateUserProfile (username email preferredLanguage : Text).

Definition step (e : Env) (s : State) (c : Call) : State :=
  match c with
  | CallAddReview a r c p => snd (addReview e s a r c p)
  | CallCreatePayment a n c m => snd (createPayment e s a n c m)
  | CallUpdatePaymentStatus i st => snd (updatePaymentStatus s i st)
  | CallUpdateUserProfile u m l => updateUserProfile e s u m l
  end.

(** A state is reachable when it is the first deployment's or follows a
    reachable one by an update call. *)
Inductive reachable : State -> Prop :=
| reachable_init e : reachable (init e)
| reachable_step e s c : reachable s -> reachable (step e s c).


(** ** The vocabulary of the specification *)

(** [p] occurs in [t] as a contiguous run. *)
Definition isSubstring (p t : Text) : Prop := exists pre post, t = pre ++ p ++ post.

(** The text criterion of the search, in the words of the specification. *)
Definition queryCriterion {textCase : TextCase} (queryText : Text) (a : Attraction.t) : Prop :=
  let q := Text_toLowerCase queryText in
  isSubstring q (Text_toLowerCase (Attraction.name a))
  \/ isSubstring q (Text_toLowerCase (Attraction.description a))
  \/ exists tag, In tag (Attraction.tags a) /\ isSubstring q (Text_toLowerCase tag).

Definition categoryCriterion (category : option Text) (a : Attraction.t) : Prop :=
  forall cat, category = Some cat -> Attraction.category a = cat.

Definition languageCriterion (language : option Text) (a : Attraction.t) : Prop :=
  forall lang, language = Some lang -> In lang (Attraction.languages a).

(** The reviews of a store that belong to one attraction, and the
    arithmetic mean of their integer ratings as a binary64 number. *)
Definition reviewsFor (m : gmap N Review.t) (attractionId : AttractionId) : list Review.t :=
  List.filter (fun r => Review.attractionId r =? attractionId) (map snd (map_to_list m)).

Definition ratingSum (rs : list Review.t) : N :=
  fold_right N.add 0 (map Review.rating rs).

Definition arithmeticMean (rs : list Review.t) : float :=
  (Float_fromInt (Z.of_N (ratingSum rs)) / Float_fromInt (Z.of_nat (length rs)))%float.

(** The arguments of one [addReview] call on a fixed attraction, with the
    environment it is executed in, and a sequence of such calls. *)
Record ReviewCall := mkReviewCall {
  rcEnv : Env;
  rcRating : N;
  rcComment : Text;
  rcPhotos : list Text
}.

Definition addReviews (s : State) (attractionId : AttractionId) (calls : list ReviewCall)
  : State :=
  fold_left
    (fun s c => snd (addReview (rcEnv c) s attractionId (rcRating c) (rcComment c) (rcPhotos c)))
    calls s.

(** The two failure kinds of the specification, as the messages the actor
    returns for them. *)
Definition ValidationError : Text := "Rating must be between 1 and 5".
Definition NotFoundError : Text := "Attraction not found".
Definition PaymentNotFoundError : Text := "Payment not found".

(** The same message environment with another remote caller. *)
Definition withCaller (c : Principal) (e : Env) : Env := mkEnv (this e) c (now e).

(** The identity value that a successful mutating call records: the
    [userId] of the review stored under the returned id, the [userId] of
    the returned payment transaction, or the key of the profile entry that
    the call wrote. *)
Inductive recordsIdentity (e : Env) : Principal -> Prop :=
| records_review s attractionId rating comment photos reviewId review :
    fst (addReview e s attractionId rating comment photos) = ok reviewId ->
    reviews (snd (addReview e s attractionId rating comment photos)) !! reviewId
    = Some review ->
    recordsIdentity e (Review.userId review)
| records_payment s attractionId amount currency paymentMethod tx :
    fst (createPayment e s attractionId amount currency paymentMethod) = ok tx ->
    recordsIdentity e (PaymentTransaction.userId tx)
| records_profile s username email preferredLanguage key :
    users (updateUserProfile e s username email preferredLanguage) !! key
    <> users s !! key ->
    recordsIdentity e key.

(** ** A sample run

    The service is deployed, Alice reviews the salt lake twice, sets up her
    profile and Bob starts a payment for the salt museum. *)
Module Scenario.

Definition service : Principal := "rrkah-fqaaa-aaaaa-aaaaq-cai".

Definition deploy : Env := mkEnv service "2vxsx-fae" 1700000000000000000.
Definition alice1 : Env := mkEnv service "alice" 1700000001000000000.
Definition alice2 : Env := mkEnv service "alice" 1700000002000000000.
Definition alice3 : Env := mkEnv service "alice" 1700000003000000000.
Definition bob1 : Env := mkEnv service "bob" 1700000004000000000.
Definition carol1 : Env := mkEnv service "carol" 1700000004000000000.
Definition later : Env := mkEnv service "2vxsx-fae" 1700000005000000000.

Definition installed : State := init deploy.

Definition twoReviews : list ReviewCall :=
  [ mkReviewCall alice1 5 "Wonderful lake" [];
    mkReviewCall alice2 4 "Crowded in August" ["/photos/1.jpg"] ].

Definition reviewed : State := addReviews installed 0 twoReviews.

Definition profiled : State := updateUserProfile alice3 reviewed "alice" "alice@example.org" "bs".

Definition bobPays : Result PaymentTransaction.t Text * State :=
  createPayment bob1 profiled 2 300 "EUR" "ICP".

Definition paid : State := snd bobPays.

Definition bobTx : PaymentTransaction.t :=
  PaymentTransaction.mk "tx_17000000040000000000" service 2 300 "EUR" "ICP" "pending"
    "nowpayments:300-EUR" 1700000004000000000.

(** Carol's payment is executed in the same round as Bob's, so both
    messages see the same system time. *)
Definition carolPays : Result PaymentTransaction.t Text * State :=
  createPayment carol1 paid 0 500 "USD" "fiat".

End Scenario.

(** ** Relations between states of the catalog *)

(** Two attraction records that differ at most in [rating] and
    [updatedAt], the two fields [addReview] writes. *)
Definition sameButRating (a b : Attraction.t) : Prop :=
  Attraction.id a = Attraction.id b
  /\ Attraction.name a = Attraction.name b
  /\ Attraction.description a = Attraction.description b
  /\ Attraction.location a = Attraction.location b
  /\ Attraction.category a = Attraction.category b
  /\ Attraction.imageUrl a = Attraction.imageUrl b
  /\ Attraction.audioUrl a = Attraction.audioUrl b
  /\ Attraction.price a = Attraction.price b
  /\ Attraction.languages a = Attraction.languages b
  /\ Attraction.tags a = Attraction.tags b
  /\ Attraction.createdAt a = Attraction.createdAt b.

(** ** Decimal texts *)

(** A text without the minus sign, as every decimal numeral is. *)
Fixpoint noDash (t : Text) : Prop :=
  match t with
  | EmptyString => True
  | String c t' => c <> "-"%char /\ noDash t'
  end.

(** ** Facts about the base library model *)

Lemma Text_startsWith_spec (t p : Text) :
  Text_startsWith t p = true <-> exists post, t = p ++ post.
Proof.
  revert t. induction p as [|d p IH]; intros t; simpl.
  - split; [intros _; now exists t | now destruct t].
  - destruct t as [|c t]; simpl.
    + split; [discriminate | intros [post H]; discriminate].
    + rewrite andb_true_iff, Ascii.eqb_eq, IH. split.
      * intros [-> [post ->]]. now exists post.
      * intros [post H]. injection H as -> ->. split; [reflexivity | now exists post].
Qed.

Lemma Text_contains_nil (p : Text) :
  Text_contains "" p = Text_startsWith "" p || false.
Proof. reflexivity. Qed.

Lemma Text_contains_cons (c : ascii) (t p : Text) :
  Text_contains (String c t) p = Text_startsWith (String c t) p || Text_contains t p.
Proof. reflexivity. Qed.

Lemma Text_contains_spec (t p : Text) :
  Text_contains t p = true <-> isSubstring p t.
Proof.
  unfold isSubstring. induction t as [|c t IH].
  - rewrite Text_contains_nil, orb_false_r, Text_startsWith_spec. split.
    + intros [post H]. now exists "", post.
    + intros [pre [post H]]. destruct pre; simpl in H; [now exists post | discriminate].
  - rewrite Text_contains_cons, orb_true_iff, Text_startsWith_spec, IH. split.
    + intros [[post H] | [pre [post H]]].
      * now exists "", post.
      * exists (String c pre), post. simpl. now rewrite H.
    + intros [pre [post H]]. destruct pre as [|c' pre]; simpl in H.
      * left. now exists post.
      * right. injection H as _ H. now exists pre, post.
Qed.

Lemma isSubstring_empty (t : Text) : isSubstring "" t.
Proof. now exists "", t. Qed.

Lemma List_some_spec {A} (l : list A) (f : A -> bool) :
  List_some l f = true <-> exists x, In x l /\ f x = true.
Proof. apply existsb_exists. Qed.

(** A loop that pushes the selected entries onto an accumulator yields
    them in reverse on top of it. *)
Lemma fold_left_push {A B} (g : list B -> A -> list B) (p : A -> bool) (f : A -> B) :
  (forall r x, g r x = if p x then f x :: r else r) ->
  forall l acc, fold_left g l acc = (rev (map f (List.filter p l)) ++ acc)%list.
Proof.
  intros Hg l. induction l as [|x l IH]; intros acc; simpl; [reflexivity|].
  rewrite IH, Hg. destruct (p x); simpl; [|reflexivity].
  now rewrite <- app_assoc.
Qed.

Lemma Trie_iter_In `{Countable K} {V} (t : gmap K V) (k : K) (v : V) :
  In (k, v) (Trie_iter t) <-> t !! k = Some v.
Proof. unfold Trie_iter. rewrite <- list_elem_of_In. apply elem_of_map_to_list. Qed.

(** ** Catalog and search *)

Lemma searchMatches_spec {textCase : TextCase} (query : Text) (category language : option Text)
    (a : Attraction.t) :
  searchMatches (Text_toLowerCase query) category language a = true
  <-> queryCriterion query a /\ categoryCriterion category a /\ languageCriterion language a.
Proof.
  unfold searchMatches, queryCriterion, categoryCriterion, languageCriterion.
  set (q := Text_toLowerCase query).
  assert (Hq :
    Text_contains (Text_toLowerCase (Attraction.name a)) q
    || Text_contains (Text_toLowerCase (Attraction.description a)) q
    || List_some (Attraction.tags a) (fun tag => Text_contains (Text_toLowerCase tag) q)
    = true
    <-> isSubstring q (Text_toLowerCase (Attraction.name a))
        \/ isSubstring q (Text_toLowerCase (Attraction.description a))
        \/ exists tag, In tag (Attraction.tags a) /\ isSubstring q (Text_toLowerCase tag)).
  { rewrite !orb_true_iff, !Text_contains_spec, List_some_spec.
    split.
    - intros [[H|H]|[tag [Hin H]]]; auto.
      right; right. exists tag. now rewrite <- Text_contains_spec.
    - intros [H|[H|[tag [Hin H]]]]; auto.
      right. exists tag. now rewrite Text_contains_spec. }
  rewrite <- Hq. clear Hq.
  destruct (Text_contains _ q || Text_contains _ q || List_some _ _); simpl.
  2:{ split; [|intros [? _]; discriminate].
      destruct category as [cat|]; [destruct (negb _)|];
        (destruct language as [lang|]; [destruct (negb _)|]); discriminate. }
  assert (Hc : forall (b : bool),
    (match category with
     | Some cat => if negb (String.eqb (Attraction.category a) cat) then false else b
     | None => b
     end) = true
    <-> (forall cat, category = Some cat -> Attraction.category a = cat) /\ b = true).
  { intros b. destruct category as [cat|].
    - destruct (String.eqb_spec (Attraction.category a) cat) as [E|E]; simpl.
      + split; [intros ->; split; [intros ? [= <-]; exact E | reflexivity] | tauto].
      + split; [discriminate | intros [Hx _]; destruct E; now apply Hx].
    - split; [intros ->; split; [discriminate | reflexivity] | tauto]. }
  destruct language as [lang|].
  - destruct (List_some (Attraction.languages a) (fun l => String.eqb l lang)) eqn:El; simpl.
    + rewrite Hc. apply List_some_spec in El. destruct El as [l [Hin El]].
      apply String.eqb_eq in El. subst l.
      split; [intros [Hcat _]; repeat split; auto; now intros ? [= <-] | tauto].
    + split.
      * destruct category as [cat|]; [destruct (negb _)|]; discriminate.
      * intros [_ [_ Hl]]. specialize (Hl lang eq_refl).
        assert (List_some (Attraction.languages a) (fun l => String.eqb l lang) = true) as E.
        { apply List_some_spec. exists lang. split; [exact Hl | apply String.eqb_refl]. }
        congruence.
  - rewrite Hc. split; [intros [Hcat _]; repeat split; auto; discriminate | tauto].
Qed.

Lemma Text_toLowerCase_empty {textCase : TextCase} : Text_toLowerCase "" = "".
Proof. now rewrite Text_toLowerCase_ascii. Qed.

(** C4. Whatever the platform's lowercasing does beyond ASCII,
    [searchAttractions] returns exactly the stored attractions that satisfy
    every supplied filter: the lowercased query occurs in the lowercased
    name, description or some lowercased tag; the category, if given, is
    equal to the attraction's; the language, if given, is one of the
    attraction's languages.  An empty query satisfies the text criterion
    for every attraction, and two ASCII queries that differ only in the
    case of their letters give the same result. *)
Theorem searchAttractions_exact {textCase : TextCase} :
  (forall (s : State) (queryText : Text) (category language : option Text)
          (a : Attraction.t),
      In a (searchAttractions s queryText category language)
      <-> (exists id, attractions s !! id = Some a)
          /\ queryCriterion queryText a
          /\ categoryCriterion category a
          /\ languageCriterion language a)
  /\ (forall a : Attraction.t, queryCriterion "" a)
  /\ (forall (s : State) (query1 query2 : Text) (category language : option Text),
         isAsciiText query1 = true ->
         isAsciiText query2 = true ->
         asciiLowerCase query1 = asciiLowerCase query2 ->
         searchAttractions s query1 category language
         = searchAttractions s query2 category language).
Proof.
  split; [|split].
  - intros s queryText category language a. unfold searchAttractions.
    rewrite (fold_left_push _
               (fun kv => searchMatches (Text_toLowerCase queryText) category language (snd kv))
               snd) by (intros r [id x]; reflexivity).
    rewrite app_nil_r, <- in_rev, in_map_iff. split.
    + intros [[id x] [<- Hin]]. apply filter_In in Hin. destruct Hin as [Hin Hm].
      simpl in *. apply Trie_iter_In in Hin. apply searchMatches_spec in Hm.
      split; [now exists id | exact Hm].
    + intros [[id Hid] Hm]. exists (id, a). split; [reflexivity|].
      apply filter_In. split; [now apply Trie_iter_In | now apply searchMatches_spec].
  - intros a. left. rewrite Text_toLowerCase_empty. apply isSubstring_empty.
  - intros s query1 query2 category language H1 H2 Heq. unfold searchAttractions.
    now rewrite (Text_toLowerCase_ascii query1 H1), (Text_toLowerCase_ascii query2 H2), Heq.
Qed.

(** ** Reviews and ratings *)

Lemma getReviewsInternal_eq (s : State) (attractionId : AttractionId) :
  getReviewsInternal s attractionId = rev (reviewsFor (reviews s) attractionId).
Proof.
  unfold getReviewsInternal, reviewsFor, Trie_iter.
  rewrite (fold_left_push _ (fun kv => Review.attractionId (snd kv) =? attractionId) snd)
    by (intros r [id x]; reflexivity).
  rewrite app_nil_r. f_equal.
  induction (map_to_list (reviews s)) as [|[id x] l IH]; simpl; [reflexivity|].
  destruct (Review.attractionId x =? attractionId); simpl; now rewrite IH.
Qed.

Lemma reviewsFor_In (m : gmap N Review.t) (attractionId : AttractionId) (r : Review.t) :
  In r (reviewsFor m attractionId)
  <-> (exists id, m !! id = Some r) /\ Review.attractionId r = attractionId.
Proof.
  unfold reviewsFor. rewrite filter_In, N.eqb_eq, in_map_iff. split.
  - intros [[[id x] [<- Hin]] Ha]. split; [|exact Ha].
    exists id. now apply Trie_iter_In.
  - intros [[id Hid] Ha]. split; [|exact Ha].
    exists (id, r). split; [reflexivity | now apply Trie_iter_In].
Qed.

Lemma fold_left_rating (l : list Review.t) (a : N) :
  fold_left (fun acc r => acc + Review.rating r) l a = a + ratingSum l.
Proof.
  unfold ratingSum. revert a. induction l as [|r l IH]; intros a; simpl.
  - now rewrite N.add_0_r.
  - rewrite IH. lia.
Qed.

Lemma ratingSum_app (l1 l2 : list Review.t) :
  ratingSum (l1 ++ l2) = ratingSum l1 + ratingSum l2.
Proof.
  unfold ratingSum. induction l1 as [|r l1 IH]; simpl; [reflexivity|].
  rewrite IH. lia.
Qed.

Lemma ratingSum_rev (l : list Review.t) : ratingSum (rev l) = ratingSum l.
Proof.
  induction l as [|r l IH]; simpl; [reflexivity|].
  rewrite ratingSum_app, IH. unfold ratingSum. simpl. lia.
Qed.

Lemma meanRating_rev (l : list Review.t) : meanRating (rev l) = arithmeticMean l.
Proof.
  unfold meanRating, arithmeticMean, totalRating, List_foldl.
  now rewrite fold_left_rating, N.add_0_l, ratingSum_rev, length_rev.
Qed.

Lemma valid_rating_test (rating : N) :
  (rating <? 1) || (5 <? rating) = false <-> 1 <= rating <= 5.
Proof. rewrite orb_false_iff, !N.ltb_ge. lia. Qed.

(** What a successful [addReview] does, field by field. *)
Lemma addReview_success (e : Env) (s : State) (attractionId : AttractionId) (rating : N)
    (comment : Text) (photos : list Text) (a : Attraction.t) :
  1 <= rating <= 5 ->
  attractions s !! attractionId = Some a ->
  let review := newReview e s attractionId rating comment photos in
  let stored := <[nextReviewId s := review]> (reviews s) in
  addReview e s attractionId rating comment photos
  = (ok (nextReviewId s),
     mkState
       (<[attractionId :=
            withRating a (arithmeticMean (reviewsFor stored attractionId)) (now e)]>
          (attractions s))
       stored (users s) (payments s) (nextAttractionId s) (nextReviewId s + 1)).
Proof.
  intros Hr Ha. simpl. unfold addReview, Trie_get.
  apply valid_rating_test in Hr. rewrite Hr, Ha.
  rewrite getReviewsInternal_eq, meanRating_rev. reflexivity.
Qed.

Lemma addReview_keeps_attractions (e : Env) (s : State) (attractionId : AttractionId)
    (rating : N) (comment : Text) (photos : list Text) (id : AttractionId) :
  is_Some (attractions s !! id) ->
  is_Some (attractions (snd (addReview e s attractionId rating comment photos)) !! id).
Proof.
  intros Hid. unfold addReview, Trie_get.
  destruct ((rating <? 1) || (5 <? rating)); [exact Hid|].
  destruct (attractions s !! attractionId) as [a|] eqn:Ha; [|exact Hid].
  simpl. rewrite lookup_insert. case_decide; [eauto | exact Hid].
Qed.

Lemma addReviews_keeps_attractions (calls : list ReviewCall) (s : State)
    (attractionId id : AttractionId) :
  is_Some (attractions s !! id) ->
  is_Some (attractions (addReviews s attractionId calls) !! id).
Proof.
  revert s. induction calls as [|c calls IH]; intros s Hid; [exact Hid|].
  apply IH. now apply addReview_keeps_attractions.
Qed.

(** C2. After any sequence of [addReview] calls on an existing attraction,
    a further call with a rating in [1,5] returns the current
    [nextReviewId] as the id of the new review, advances the counter,
    stores under that id the review made of that id, the attraction id, the
    service's identity value, the rating, the comment, the photos and the
    current time, and sets the attraction's rating to the arithmetic mean
    of the ratings of all the stored reviews of that attraction, the new
    one included, with [updatedAt] set to the current time. *)
Theorem addReview_rating_is_mean (s0 : State) (calls : list ReviewCall) (e : Env)
    (attractionId : AttractionId) (rating : N) (comment : Text) (photos : list Text) :
  is_Some (attractions s0 !! attractionId) ->
  1 <= rating <= 5 ->
  let s := addReviews s0 attractionId calls in
  let result := addReview e s attractionId rating comment photos in
  let s' := snd result in
  let review :=
    Review.mk (nextReviewId s) attractionId (this e) rating comment photos (now e) in
  let mean := arithmeticMean (reviewsFor (reviews s') attractionId) in
  fst result = ok (nextReviewId s)
  /\ nextReviewId s' = nextReviewId s + 1
  /\ reviews s' = <[nextReviewId s := review]> (reviews s)
  /\ reviews s' !! nextReviewId s = Some review
  /\ In review (reviewsFor (reviews s') attractionId)
  /\ (exists a, attractions s !! attractionId = Some a
       /\ attractions s' = <[attractionId := withRating a mean (now e)]> (attractions s))
  /\ (exists a', attractions s' !! attractionId = Some a'
       /\ Attraction.rating a' = mean
       /\ Attraction.updatedAt a' = now e)
  /\ users s' = users s
  /\ payments s' = payments s
  /\ nextAttractionId s' = nextAttractionId s.
Proof.
  intros Hs0 Hr s.
  destruct (addReviews_keeps_attractions calls s0 attractionId attractionId Hs0) as [a Ha].
  fold s in Ha. simpl.
  rewrite (addReview_success e s attractionId rating comment photos a Hr Ha). simpl.
  split; [reflexivity|]. split; [reflexivity|]. split; [reflexivity|].
  split; [apply lookup_insert_eq|]. split.
  { apply reviewsFor_In. split; [|reflexivity].
    exists (nextReviewId s). apply lookup_insert_eq. }
  split; [exists a; split; [exact Ha | reflexivity]|].
  split; [|repeat split].
  eexists. split; [apply lookup_insert_eq|]. split; reflexivity.
Qed.

(** C10. In a successful [addReview], the list gathered for the rating
    recomputation contains the review just put, so its size, the
    denominator of the mean, is not zero; the rating stored is the
    quotient computed from that list. *)
Theorem addReview_allReviews_nonempty (e : Env) (s : State) (attractionId : AttractionId)
    (rating : N) (comment : Text) (photos : list Text) (reviewId : ReviewId) :
  fst (addReview e s attractionId rating comment photos) = ok reviewId ->
  let allReviews :=
    getReviewsInternal (addReview_stored e s attractionId rating comment photos)
      attractionId in
  In (newReview e s attractionId rating comment photos) allReviews
  /\ length allReviews <> 0%nat
  /\ Z.of_nat (length allReviews) <> 0%Z
  /\ exists a', attractions (snd (addReview e s attractionId rating comment photos))
                  !! attractionId = Some a'
                /\ Attraction.rating a' = meanRating allReviews.
Proof.
  intros Hok allReviews.
  assert (Hin : In (newReview e s attractionId rating comment photos) allReviews).
  { unfold allReviews. rewrite getReviewsInternal_eq, <- in_rev.
    apply reviewsFor_In. split; [|reflexivity].
    exists (nextReviewId s). apply lookup_insert_eq. }
  assert (Hlen : length allReviews <> 0%nat).
  { destruct allReviews; [destruct Hin | discriminate]. }
  repeat split; [exact Hin | exact Hlen | lia |].
  revert Hok. unfold addReview, Trie_get.
  destruct ((rating <? 1) || (5 <? rating)); [discriminate|].
  destruct (attractions s !! attractionId) as [a|]; [|discriminate].
  intros _. simpl. eexists. split; [apply lookup_insert_eq | reflexivity].
Qed.

(** ** Failing calls *)

(** The three ways [addReview] can end, and the two ways [createPayment]
    can. *)
Lemma addReview_cases (e : Env) (s : State) (attractionId : AttractionId) (rating : N)
    (comment : Text) (photos : list Text) :
  ((rating < 1 \/ 5 < rating)
   /\ addReview e s attractionId rating comment photos = (err ValidationError, s))
  \/ (1 <= rating <= 5 /\ attractions s !! attractionId = None
      /\ addReview e s attractionId rating comment photos = (err NotFoundError, s))
  \/ (1 <= rating <= 5 /\ is_Some (attractions s !! attractionId)
      /\ fst (addReview e s attractionId rating comment photos) = ok (nextReviewId s)).
Proof.
  unfold addReview, Trie_get.
  destruct ((rating <? 1) || (5 <? rating)) eqn:Hr.
  - left. apply orb_true_iff in Hr. rewrite !N.ltb_lt in Hr. now split.
  - right. apply valid_rating_test in Hr.
    destruct (attractions s !! attractionId) as [a|]; [right | left]; eauto.
Qed.

Lemma createPayment_cases (e : Env) (s : State) (attractionId : AttractionId) (amount : N)
    (currency paymentMethod : Text) :
  (attractions s !! attractionId = None
   /\ createPayment e s attractionId amount currency paymentMethod = (err NotFoundError, s))
  \/ (is_Some (attractions s !! attractionId)
      /\ exists tx, fst (createPayment e s attractionId amount currency paymentMethod) = ok tx).
Proof.
  unfold createPayment, Trie_get.
  destruct (attractions s !! attractionId) as [a|]; [right | left]; eauto.
Qed.

Ltac addReview_by_cases e s a r c p :=
  destruct (addReview_cases e s a r c p)
    as [[? ->] | [(? & ? & ->) | (? & [? ?] & ?)]]; simpl.

Ltac createPayment_by_cases e s a n c m :=
  destruct (createPayment_cases e s a n c m) as [[? ->] | [[? ?] [? ?]]]; simpl.

Ltac absurd_case :=
  solve [ discriminate | lia | congruence
        | match goal with H : _ \/ _ |- _ => destruct H; lia end
        | match goal with H : _ /\ _ |- _ => destruct H; (lia || congruence) end ].

(** C3. [addReview] fails with the validation message exactly when the
    rating is outside [1,5], whatever the attraction id; with a rating in
    range it fails with the not-found message exactly when the attraction
    id is not stored; [createPayment] fails with the not-found message
    exactly when the attraction id is not stored; and a failing call of
    either returns the state it was given. *)
Theorem failing_calls_change_nothing :
  (forall e s attractionId rating comment photos,
      fst (addReview e s attractionId rating comment photos) = err ValidationError
      <-> (rating < 1 \/ 5 < rating))
  /\ (forall e s attractionId rating comment photos,
         fst (addReview e s attractionId rating comment photos) = err NotFoundError
         <-> (1 <= rating <= 5 /\ attractions s !! attractionId = None))
  /\ (forall e s attractionId amount currency paymentMethod,
         fst (createPayment e s attractionId amount currency paymentMethod)
         = err NotFoundError
         <-> attractions s !! attractionId = None)
  /\ (forall e s attractionId rating comment photos message,
         fst (addReview e s attractionId rating comment photos) = err message ->
         snd (addReview e s attractionId rating comment photos) = s
         /\ (message = ValidationError \/ message = NotFoundError))
  /\ (forall e s attractionId amount currency paymentMethod message,
         fst (createPayment e s attractionId amount currency paymentMethod) = err message ->
         snd (createPayment e s attractionId amount currency paymentMethod) = s
         /\ message = NotFoundError).
Proof.
  split; [|split; [|split; [|split]]].
  - intros e s a r c p. addReview_by_cases e s a r c p.
    + tauto.
    + split; intros; absurd_case.
    + split; intros; absurd_case.
  - intros e s a r c p. addReview_by_cases e s a r c p.
    + split; intros; absurd_case.
    + tauto.
    + split; intros; absurd_case.
  - intros e s a n c m. createPayment_by_cases e s a n c m.
    + tauto.
    + split; intros; absurd_case.
  - intros e s a r c p message. addReview_by_cases e s a r c p.
    + intros [= <-]. auto.
    + intros [= <-]. auto.
    + intros; absurd_case.
  - intros e s a n c m message. createPayment_by_cases e s a n c m.
    + intros [= <-]. auto.
    + intros; absurd_case.
Qed.

(** ** Profiles *)

Lemma updateUserProfile_new (e : Env) (s : State) (username email preferredLanguage : Text) :
  users s !! this e = None ->
  updateUserProfile e s username email preferredLanguage
  = mkState (attractions s) (reviews s)
      (<[this e := UserProfile.mk (this e) username email preferredLanguage [] [] 0 (now e)]>
         (users s))
      (payments s) (nextAttractionId s) (nextReviewId s).
Proof. intros Hu. unfold updateUserProfile, Trie_get. now rewrite Hu. Qed.

Lemma updateUserProfile_existing (e : Env) (s : State)
    (username email preferredLanguage : Text) (existing : UserProfile.t) :
  users s !! this e = Some existing ->
  updateUserProfile e s username email preferredLanguage
  = mkState (attractions s) (reviews s)
      (<[this e := UserProfile.mk (UserProfile.id existing) username email preferredLanguage
                     (UserProfile.visitedAttractions existing)
                     (UserProfile.favoriteAttractions existing)
                     (UserProfile.totalSpent existing) (UserProfile.createdAt existing)]>
         (users s))
      (payments s) (nextAttractionId s) (nextReviewId s).
Proof. intros Hu. unfold updateUserProfile, Trie_get. now rewrite Hu. Qed.

(** C5. [updateUserProfile] is total.  Without a profile under the
    service's identity value it stores a new one with the given username,
    email and language, empty visited and favorite lists, zero spend and
    the current time as [createdAt].  With one it replaces username, email
    and language and keeps every other field.  Two calls in a row leave a
    single profile under that key, with the second call's username and the
    [createdAt] that the first call left; no other store, counter or
    profile changes. *)
Theorem updateUserProfile_upsert :
  (forall e s username email preferredLanguage,
      users s !! this e = None ->
      updateUserProfile e s username email preferredLanguage
      = mkState (attractions s) (reviews s)
          (<[this e :=
               UserProfile.mk (this e) username email preferredLanguage [] [] 0 (now e)]>
             (users s))
          (payments s) (nextAttractionId s) (nextReviewId s))
  /\ (forall e s username email preferredLanguage existing,
         users s !! this e = Some existing ->
         updateUserProfile e s username email preferredLanguage
         = mkState (attractions s) (reviews s)
             (<[this e :=
                  UserProfile.mk (UserProfile.id existing) username email preferredLanguage
                    (UserProfile.visitedAttractions existing)
                    (UserProfile.favoriteAttractions existing)
                    (UserProfile.totalSpent existing) (UserProfile.createdAt existing)]>
                (users s))
             (payments s) (nextAttractionId s) (nextReviewId s))
  /\ (forall e1 e2 s username1 email1 language1 username2 email2 language2,
         this e1 = this e2 ->
         let s1 := updateUserProfile e1 s username1 email1 language1 in
         let s2 := updateUserProfile e2 s1 username2 email2 language2 in
         exists p1 p2,
           users s1 !! this e1 = Some p1
           /\ users s2 !! this e1 = Some p2
           /\ UserProfile.username p2 = username2
           /\ UserProfile.email p2 = email2
           /\ UserProfile.preferredLanguage p2 = language2
           /\ UserProfile.createdAt p2 = UserProfile.createdAt p1
           /\ UserProfile.id p2 = UserProfile.id p1
           /\ UserProfile.visitedAttractions p2 = UserProfile.visitedAttractions p1
           /\ UserProfile.favoriteAttractions p2 = UserProfile.favoriteAttractions p1
           /\ UserProfile.totalSpent p2 = UserProfile.totalSpent p1
           /\ (users s !! this e1 = None -> UserProfile.createdAt p2 = now e1)
           /\ dom (users s2) = dom (users s1)
           /\ size (users s2) = size (users s1)
           /\ (forall k, k <> this e1 -> users s2 !! k = users s !! k)
           /\ attractions s2 = attractions s /\ reviews s2 = reviews s
           /\ payments s2 = payments s
           /\ nextAttractionId s2 = nextAttractionId s /\ nextReviewId s2 = nextReviewId s).
Proof.
  split; [exact updateUserProfile_new|]. split; [exact updateUserProfile_existing|].
  intros e1 e2 s u1 m1 l1 u2 m2 l2 Hthis s1 s2.
  assert (H1 : exists p1, users s1 !! this e1 = Some p1
             /\ users s1 = <[this e1 := p1]> (users s)
             /\ (users s !! this e1 = None -> UserProfile.createdAt p1 = now e1)
             /\ attractions s1 = attractions s /\ reviews s1 = reviews s
             /\ payments s1 = payments s
             /\ nextAttractionId s1 = nextAttractionId s /\ nextReviewId s1 = nextReviewId s).
  { unfold s1. destruct (users s !! this e1) as [p0|] eqn:Hu.
    - rewrite (updateUserProfile_existing _ _ _ _ _ _ Hu). simpl.
      eexists. split; [apply lookup_insert_eq|]. repeat split. discriminate.
    - rewrite (updateUserProfile_new _ _ _ _ _ Hu). simpl.
      eexists. split; [apply lookup_insert_eq|]. repeat split. }
  destruct H1 as [p1 (Hp1 & Hus1 & Hc1 & Ha1 & Hr1 & Hpay1 & Hna1 & Hnr1)].
  clearbody s1.
  assert (Hp1' : users s1 !! this e2 = Some p1) by now rewrite <- Hthis.
  exists p1. unfold s2. rewrite (updateUserProfile_existing _ _ _ _ _ _ Hp1'). simpl.
  rewrite <- Hthis. eexists. split; [exact Hp1|]. split; [apply lookup_insert_eq|].
  simpl. repeat split; try assumption.
  - apply dom_insert_lookup_L. eauto.
  - now rewrite map_size_insert_Some by eauto.
  - intros k Hk. rewrite lookup_insert_ne by congruence.
    rewrite Hus1. now rewrite lookup_insert_ne by congruence.
Qed.

(** ** Payments *)

(** C6. For a stored payment id, [updatePaymentStatus] succeeds with any
    text as the new status, replaces the status of that transaction and
    nothing else of it, and leaves every other payment, the other three
    stores and both counters as they were.  For an unknown id it fails with
    the not-found message and returns the state it was given. *)
Theorem updatePaymentStatus_frame :
  (forall s paymentId newStatus payment,
      payments s !! paymentId = Some payment ->
      let result := updatePaymentStatus s paymentId newStatus in
      let s' := snd result in
      fst result = ok tt
      /\ (exists payment',
             payments s' !! paymentId = Some payment'
             /\ PaymentTransaction.status payment' = newStatus
             /\ PaymentTransaction.id payment' = PaymentTransaction.id payment
             /\ PaymentTransaction.userId payment' = PaymentTransaction.userId payment
             /\ PaymentTransaction.attractionId payment'
                = PaymentTransaction.attractionId payment
             /\ PaymentTransaction.amount payment' = PaymentTransaction.amount payment
             /\ PaymentTransaction.currency payment' = PaymentTransaction.currency payment
             /\ PaymentTransaction.paymentMethod payment'
                = PaymentTransaction.paymentMethod payment
             /\ PaymentTransaction.qrCodeData payment'
                = PaymentTransaction.qrCodeData payment
             /\ PaymentTransaction.createdAt payment'
                = PaymentTransaction.createdAt payment)
      /\ (forall other, other <> paymentId -> payments s' !! other = payments s !! other)
      /\ dom (payments s') = dom (payments s)
      /\ attractions s' = attractions s /\ reviews s' = reviews s /\ users s' = users s
      /\ nextAttractionId s' = nextAttractionId s /\ nextReviewId s' = nextReviewId s)
  /\ (forall s paymentId newStatus,
         payments s !! paymentId = None ->
         updatePaymentStatus s paymentId newStatus = (err PaymentNotFoundError, s)).
Proof.
  split.
  - intros s paymentId newStatus payment Hp. unfold updatePaymentStatus, Trie_get.
    rewrite Hp. simpl. split; [reflexivity|]. split.
    { eexists. split; [apply lookup_insert_eq|]. repeat split. }
    repeat split.
    + intros other Hother. now rewrite lookup_insert_ne by congruence.
    + apply dom_insert_lookup_L. eauto.
  - intros s paymentId newStatus Hp. unfold updatePaymentStatus, Trie_get. now rewrite Hp.
Qed.

(** C7. A successful [createPayment] returns a transaction with status
    "pending" and the given attraction id, amount, currency and payment
    method; its payload is not empty and is [generateQRCodeData] of the
    attraction's name, the amount and the currency, so two successful
    calls, in any states and at any times, that agree on these three give
    the same payload. *)
Theorem createPayment_pending (e : Env) (s : State) (attractionId : AttractionId)
    (amount : N) (currency paymentMethod : Text) (tx : PaymentTransaction.t) :
  fst (createPayment e s attractionId amount currency paymentMethod) = ok tx ->
  PaymentTransaction.status tx = "pending"
  /\ PaymentTransaction.attractionId tx = attractionId
  /\ PaymentTransaction.amount tx = amount
  /\ PaymentTransaction.currency tx = currency
  /\ PaymentTransaction.paymentMethod tx = paymentMethod
  /\ PaymentTransaction.qrCodeData tx <> ""
  /\ (exists a, attractions s !! attractionId = Some a
        /\ PaymentTransaction.qrCodeData tx
           = generateQRCodeData (Attraction.name a) amount currency)
  /\ (forall e' s' attractionId' paymentMethod' tx' a a',
         attractions s !! attractionId = Some a ->
         attractions s' !! attractionId' = Some a' ->
         Attraction.name a' = Attraction.name a ->
         fst (createPayment e' s' attractionId' amount currency paymentMethod') = ok tx' ->
         PaymentTransaction.qrCodeData tx' = PaymentTransaction.qrCodeData tx).
Proof.
  unfold createPayment, Trie_get.
  destruct (attractions s !! attractionId) as [a|] eqn:Ha; [|discriminate].
  simpl. intros [= <-]. simpl. repeat split.
  - discriminate.
  - exists a. split; reflexivity.
  - intros e' s' attractionId' paymentMethod' tx' a0 a' [= <-] Ha' Hname.
    rewrite Ha'. simpl. intros [= <-]. simpl. reflexivity.
Qed.

(** ** Caller identity *)

Lemma recordsIdentity_this (e : Env) (u : Principal) : recordsIdentity e u -> u = this e.
Proof.
  intros [s attractionId rating comment photos reviewId review Hok Hr
         | s attractionId amount currency paymentMethod tx Hok
         | s username email preferredLanguage key Hkey].
  - revert Hok Hr. unfold addReview, Trie_get.
    destruct ((rating <? 1) || (5 <? rating)); [discriminate|].
    destruct (attractions s !! attractionId) as [a|]; [|discriminate].
    simpl. intros [= <-]. rewrite lookup_insert_eq. now intros [= <-].
  - revert Hok. unfold createPayment, Trie_get.
    destruct (attractions s !! attractionId) as [a|]; [|discriminate].
    simpl. now intros [= <-].
  - destruct (decide (key = this e)) as [-> | Hne]; [reflexivity|].
    exfalso. apply Hkey. unfold updateUserProfile. simpl.
    now rewrite lookup_insert_ne by congruence.
Qed.

(** C9. The identity recorded by a successful [addReview],
    [createPayment] or [updateUserProfile] is the service's own principal:
    two such calls on the same service record the same value, whoever the
    two remote callers are and whatever the states and times. *)
Theorem recorded_identity_ignores_caller (e1 e2 : Env) (u1 u2 : Principal) :
  this e1 = this e2 ->
  recordsIdentity e1 u1 ->
  recordsIdentity e2 u2 ->
  u1 = u2 /\ u1 = this e1.
Proof.
  intros Hthis H1 H2.
  apply recordsIdentity_this in H1. apply recordsIdentity_this in H2.
  split; congruence.
Qed.

(** ** Restart *)


Lemma reachable_sample_run : reachable Scenario.paid.
Proof.
  apply (reachable_step Scenario.bob1 Scenario.profiled (CallCreatePayment 2 300 "EUR" "ICP")).
  apply (reachable_step Scenario.alice3 Scenario.reviewed
           (CallUpdateUserProfile "alice" "alice@example.org" "bs")).
  apply (reachable_step Scenario.alice2 _
           (CallAddReview 0 4 "Crowded in August" ["/photos/1.jpg"])).
  apply (reachable_step Scenario.alice1 _ (CallAddReview 0 5 "Wonderful lake" [])).
  apply reachable_init.
Qed.





(** ** Payment ids *)

(** C8. The generated payment id depends on the system time alone, so two
    payments created in messages that see the same time get the same id.
    In the sample run Carol's payment is stored under the id of Bob's and
    replaces it: one transaction is left in the store. *)
Theorem createPayment_same_time_overwrites :
  (forall this1 caller1 this2 caller2 t,
      generatePaymentId (mkEnv this1 caller1 t) = generatePaymentId (mkEnv this2 caller2 t))
  /\ (exists tx1 tx2,
         fst Scenario.bobPays = ok tx1
         /\ fst Scenario.carolPays = ok tx2
         /\ payments (snd Scenario.bobPays) !! PaymentTransaction.id tx1 = Some tx1
         /\ PaymentTransaction.id tx2 = PaymentTransaction.id tx1
         /\ payments (snd Scenario.carolPays) !! PaymentTransaction.id tx1 = Some tx2
         /\ PaymentTransaction.amount tx1 = 300
         /\ PaymentTransaction.amount tx2 = 500
         /\ size (payments (snd Scenario.bobPays)) = 1%nat
         /\ size (payments (snd Scenario.carolPays)) = 1%nat).
Proof.
  split; [reflexivity|].
  eexists. eexists.
  split; [vm_compute; reflexivity|]. split; [vm_compute; reflexivity|].
  repeat split; vm_compute; reflexivity.
Qed.

(** ** The theorems at the sample run *)

Lemma addReview_rating_is_mean_witness :
  fst (addReview Scenario.alice3 Scenario.reviewed 0 3 "Fine" []) = ok 2
  /\ reviews (snd (addReview Scenario.alice3 Scenario.reviewed 0 3 "Fine" [])) !! 2
     = Some (Review.mk 2 0 Scenario.service 3 "Fine" [] 1700000003000000000%Z)
  /\ exists a',
       attractions (snd (addReview Scenario.alice3 Scenario.reviewed 0 3 "Fine" [])) !! 0
       = Some a'
       /\ Attraction.rating a' = 4%float
       /\ Attraction.updatedAt a' = 1700000003000000000%Z.
Proof.
  assert (H1 : is_Some (attractions Scenario.installed !! 0))
    by (vm_compute; eexists; reflexivity).
  assert (H2 : 1 <= 3 <= 5) by lia.
  destruct (addReview_rating_is_mean Scenario.installed Scenario.twoReviews Scenario.alice3
              0 3 "Fine" [] H1 H2)
    as (Hfst & _ & _ & Hstored & _ & _ & (a' & Ha' & Hr & Hu) & _).
  unfold Scenario.reviewed. split; [|split].
  - rewrite Hfst. vm_compute. reflexivity.
  - assert (Hn : nextReviewId (addReviews Scenario.installed 0 Scenario.twoReviews) = 2)
      by (vm_compute; reflexivity).
    rewrite Hn in Hstored. exact Hstored.
  - exists a'. split; [exact Ha'|]. split; [|exact Hu].
    rewrite Hr. vm_compute. reflexivity.
Defined.

Lemma addReview_allReviews_nonempty_witness :
  fst (addReview Scenario.alice1 Scenario.installed 0 5 "Wonderful lake" []) = ok 0
  /\ length (getReviewsInternal
               (addReview_stored Scenario.alice1 Scenario.installed 0 5 "Wonderful lake" [])
               0) <> 0%nat.
Proof.
  assert (H : fst (addReview Scenario.alice1 Scenario.installed 0 5 "Wonderful lake" [])
              = ok 0) by (vm_compute; reflexivity).
  split; [exact H|].
  exact (proj1 (proj2 (addReview_allReviews_nonempty Scenario.alice1 Scenario.installed
                         0 5 "Wonderful lake" [] 0 H))).
Defined.

Lemma createPayment_pending_witness :
  fst (createPayment Scenario.bob1 Scenario.profiled 2 300 "EUR" "ICP") = ok Scenario.bobTx
  /\ PaymentTransaction.status Scenario.bobTx = "pending"
  /\ PaymentTransaction.qrCodeData Scenario.bobTx <> "".
Proof.
  assert (H : fst (createPayment Scenario.bob1 Scenario.profiled 2 300 "EUR" "ICP")
              = ok Scenario.bobTx) by (vm_compute; reflexivity).
  destruct (createPayment_pending Scenario.bob1 Scenario.profiled 2 300 "EUR" "ICP"
              Scenario.bobTx H) as (Hs & _ & _ & _ & _ & Hq & _).
  split; [exact H|]. split; [exact Hs | exact Hq].
Defined.

Lemma recorded_identity_ignores_caller_witness :
  caller Scenario.alice1 <> caller Scenario.bob1
  /\ Review.userId (newReview Scenario.alice1 Scenario.installed 0 5 "Wonderful lake" [])
     = PaymentTransaction.userId Scenario.bobTx.
Proof.
  split; [discriminate|].
  assert (H1 : fst (addReview Scenario.alice1 Scenario.installed 0 5 "Wonderful lake" [])
               = ok 0) by (vm_compute; reflexivity).
  assert (H2 : reviews (snd (addReview Scenario.alice1 Scenario.installed 0 5
                               "Wonderful lake" [])) !! 0
               = Some (newReview Scenario.alice1 Scenario.installed 0 5 "Wonderful lake" []))
    by (vm_compute; reflexivity).
  assert (H3 : fst (createPayment Scenario.bob1 Scenario.profiled 2 300 "EUR" "ICP")
               = ok Scenario.bobTx) by (vm_compute; reflexivity).
  exact (proj1 (recorded_identity_ignores_caller Scenario.alice1 Scenario.bob1 _ _ eq_refl
                  (records_review _ _ _ _ _ _ _ _ H1 H2)
                  (records_payment _ _ _ _ _ _ _ H3))).
Defined.

Lemma failing_calls_change_nothing_witness :
  addReview Scenario.alice1 Scenario.installed 0 6 "Too good" []
  = (err ValidationError, Scenario.installed)
  /\ createPayment Scenario.bob1 Scenario.installed 9 300 "EUR" "ICP"
     = (err NotFoundError, Scenario.installed).
Proof.
  destruct failing_calls_change_nothing as (Hv & _ & Hn & Hkeep & Hkeep').
  assert (E1 : fst (addReview Scenario.alice1 Scenario.installed 0 6 "Too good" [])
               = err ValidationError) by (apply Hv; right; lia).
  assert (E2 : fst (createPayment Scenario.bob1 Scenario.installed 9 300 "EUR" "ICP")
               = err NotFoundError) by (apply Hn; vm_compute; reflexivity).
  split.
  - rewrite (surjective_pairing (addReview _ _ _ _ _ _)).
    now rewrite E1, (proj1 (Hkeep _ _ _ _ _ _ _ E1)).
  - rewrite (surjective_pairing (createPayment _ _ _ _ _ _)).
    now rewrite E2, (proj1 (Hkeep' _ _ _ _ _ _ _ E2)).
Defined.

Lemma updateUserProfile_upsert_witness :
  let s1 := updateUserProfile Scenario.alice3 Scenario.reviewed "alice" "alice@example.org" "bs" in
  let s2 := updateUserProfile Scenario.later s1 "alice-b" "alice@example.org" "en" in
  exists p,
    users s2 !! Scenario.service = Some p
    /\ UserProfile.username p = "alice-b"
    /\ UserProfile.createdAt p = now Scenario.alice3
    /\ size (users s2) = 1%nat.
Proof.
  intros s1 s2.
  destruct (proj2 (proj2 updateUserProfile_upsert) Scenario.alice3 Scenario.later
              Scenario.reviewed "alice" "alice@example.org" "bs"
              "alice-b" "alice@example.org" "en" eq_refl)
    as (p1 & p2 & _ & H2 & Hu & _ & _ & _ & _ & _ & _ & _ & Hnew & _ & Hsize & _).
  exists p2. split; [exact H2|]. split; [exact Hu|]. split.
  - apply Hnew. vm_compute. reflexivity.
  - fold s1 s2 in Hsize. rewrite Hsize. vm_compute. reflexivity.
Defined.

Lemma updatePaymentStatus_frame_witness :
  let result := updatePaymentStatus Scenario.paid "tx_17000000040000000000" "completed" in
  fst result = ok tt
  /\ exists payment',
       payments (snd result) !! "tx_17000000040000000000" = Some payment'
       /\ PaymentTransaction.status payment' = "completed"
       /\ PaymentTransaction.amount payment' = 300
       /\ PaymentTransaction.qrCodeData payment' = "nowpayments:300-EUR".
Proof.
  assert (H : payments Scenario.paid !! "tx_17000000040000000000" = Some Scenario.bobTx)
    by (vm_compute; reflexivity).
  destruct (proj1 updatePaymentStatus_frame Scenario.paid "tx_17000000040000000000"
              "completed" Scenario.bobTx H)
    as (Hok & (p' & Hp' & Hs & _ & _ & _ & Ha & _ & _ & Hq & _) & _).
  cbv zeta. split; [exact Hok|].
  exists p'. split; [exact Hp'|]. split; [exact Hs|]. split; [exact Ha | exact Hq].
Defined.

Lemma searchAttractions_exact_witness :
  @searchAttractions asciiCase Scenario.installed "SALT Lake" (Some "natural") (Some "bs")
  = @searchAttractions asciiCase Scenario.installed "salt lake" (Some "natural") (Some "bs").
Proof.
  apply (proj2 (proj2 (@searchAttractions_exact asciiCase))); vm_compute; reflexivity.
Defined.


(** ** The seed catalog *)

Example search_lake_any_case :
  map Attraction.name (@searchAttractions asciiCase Scenario.installed "lake" None None)
  = ["Panonsko Jezero"]
  /\ @searchAttractions asciiCase Scenario.installed "Lake" None None
     = @searchAttractions asciiCase Scenario.installed "lake" None None
  /\ @searchAttractions asciiCase Scenario.installed "LAKE" None None
     = @searchAttractions asciiCase Scenario.installed "lake" None None.
Proof. repeat split; vm_compute; reflexivity. Qed.

Example search_museums :
  map Attraction.id (@searchAttractions asciiCase Scenario.installed "" (Some "museum") None)
  = [2].
Proof. vm_compute. reflexivity. Qed.

Example first_review_sets_rating (r : N) :
  1 <= r <= 5 ->
  Attraction.rating
    <$> (attractions (snd (addReview Scenario.alice1 Scenario.installed 0 r "" [])) !! 0)
  = Some (Float_fromInt (Z.of_N r)).
Proof.
  intros Hr.
  assert (Hcases : r = 1 \/ r = 2 \/ r = 3 \/ r = 4 \/ r = 5) by lia.
  destruct Hcases as [-> | [-> | [-> | [-> | ->]]]]; vm_compute; reflexivity.
Qed.

(** ** One update call, case by case *)

Lemma step_cases (e : Env) (s : State) (c : Call) :
  (exists a r cm p x,
      c = CallAddReview a r cm p /\ 1 <= r <= 5 /\ attractions s !! a = Some x
      /\ step e s c
         = mkState
             (<[a := withRating x
                       (arithmeticMean
                          (reviewsFor (<[nextReviewId s := newReview e s a r cm p]> (reviews s)) a))
                       (now e)]> (attractions s))
             (<[nextReviewId s := newReview e s a r cm p]> (reviews s))
             (users s) (payments s) (nextAttractionId s) (nextReviewId s + 1))
  \/ (exists a n cu m x,
         c = CallCreatePayment a n cu m /\ attractions s !! a = Some x
         /\ step e s c
            = mkState (attractions s) (reviews s) (users s)
                (<[generatePaymentId e :=
                     PaymentTransaction.mk (generatePaymentId e) (this e) a n cu m "pending"
                       (generateQRCodeData (Attraction.name x) n cu) (now e)]> (payments s))
                (nextAttractionId s) (nextReviewId s))
  \/ (exists i st p,
         c = CallUpdatePaymentStatus i st /\ payments s !! i = Some p
         /\ step e s c
            = mkState (attractions s) (reviews s) (users s)
                (<[i := withStatus p st]> (payments s))
                (nextAttractionId s) (nextReviewId s))
  \/ (exists u m l p,
         c = CallUpdateUserProfile u m l
         /\ (users s !! this e = None /\ p = UserProfile.mk (this e) u m l [] [] 0 (now e)
             \/ exists old, users s !! this e = Some old
                  /\ p = UserProfile.mk (UserProfile.id old) u m l
                          (UserProfile.visitedAttractions old)
                          (UserProfile.favoriteAttractions old)
                          (UserProfile.totalSpent old) (UserProfile.createdAt old))
         /\ step e s c
            = mkState (attractions s) (reviews s) (<[this e := p]> (users s)) (payments s)
                (nextAttractionId s) (nextReviewId s))
  \/ step e s c = s.
Proof.
  destruct c as [a r cm p | a n cu m | i st | u m l]; simpl.
  - destruct (addReview_cases e s a r cm p) as [[_ ->] | [(_ & _ & ->) | (Hr & [x Hx] & _)]];
      [right; right; right; now right..|].
    left. exists a, r, cm, p, x. repeat split; try assumption; try lia.
    now rewrite (addReview_success e s a r cm p x Hr Hx).
  - unfold createPayment, Trie_get.
    destruct (attractions s !! a) as [x|] eqn:Hx; [|right; right; right; now right].
    right; left. exists a, n, cu, m, x. repeat split; assumption || reflexivity.
  - unfold updatePaymentStatus, Trie_get.
    destruct (payments s !! i) as [p|] eqn:Hp; [|right; right; right; now right].
    right; right; left. exists i, st, p. repeat split; assumption || reflexivity.
  - right; right; right; left.
    destruct (users s !! this e) as [old|] eqn:Hu.
    + eexists u, m, l, _. split; [reflexivity|]. split; [right; eauto|].
      now apply updateUserProfile_existing.
    + eexists u, m, l, _. split; [reflexivity|]. split; [left; eauto|].
      now apply updateUserProfile_new.
Qed.

(** ** The seed *)

Lemma sampleAttractions_ids (e : Env) (id : AttractionId) :
  id < 5 <-> exists a, In a (sampleAttractions e) /\ Attraction.id a = id.
Proof.
  split.
  - intros Hid.
    assert (Hcases : id = 0 \/ id = 1 \/ id = 2 \/ id = 3 \/ id = 4) by lia.
    destruct Hcases as [-> | [-> | [-> | [-> | ->]]]]; eexists.
    + split; [simpl; left; reflexivity | reflexivity].
    + split; [simpl; right; left; reflexivity | reflexivity].
    + split; [simpl; do 2 right; left; reflexivity | reflexivity].
    + split; [simpl; do 3 right; left; reflexivity | reflexivity].
    + split; [simpl; do 4 right; left; reflexivity | reflexivity].
  - intros [a [Hin <-]]. simpl in Hin.
    destruct Hin as [<- | [<- | [<- | [<- | [<- | []]]]]]; simpl; lia.
Qed.

Lemma initSampleData_sample (e : Env) (s : State) (a : Attraction.t) :
  In a (sampleAttractions e) ->
  attractions (initSampleData e s) !! Attraction.id a = Some a.
Proof.
  intros Hin. unfold initSampleData. simpl in *.
  destruct Hin as [<- | [<- | [<- | [<- | [<- | []]]]]]; simpl;
    repeat (rewrite lookup_insert_ne by discriminate); apply lookup_insert_eq.
Qed.

Lemma initSampleData_other (e : Env) (s : State) (id : AttractionId) :
  5 <= id -> attractions (initSampleData e s) !! id = attractions s !! id.
Proof.
  intros Hid. unfold initSampleData. simpl.
  now repeat (rewrite lookup_insert_ne by lia).
Qed.

Lemma initSampleData_frame (e : Env) (s : State) :
  reviews (initSampleData e s) = reviews s
  /\ users (initSampleData e s) = users s
  /\ payments (initSampleData e s) = payments s
  /\ nextAttractionId (initSampleData e s) = nextAttractionId s + 5
  /\ nextReviewId (initSampleData e s) = nextReviewId s.
Proof. unfold initSampleData. simpl. repeat split. lia. Qed.

Lemma init_lookup (e : Env) (id : AttractionId) :
  is_Some (attractions (init e) !! id) <-> id < 5.
Proof.
  split.
  - intros Hsome. destruct (N.lt_ge_cases id 5) as [H|H]; [exact H|].
    unfold init in Hsome. rewrite initSampleData_other in Hsome by exact H.
    destruct Hsome as [x Hx]. simpl in Hx. now rewrite lookup_empty in Hx.
  - intros Hid. apply (sampleAttractions_ids e) in Hid. destruct Hid as [a [Hin <-]].
    unfold init. rewrite (initSampleData_sample e _ a Hin). eauto.
Qed.

Lemma init_lookup_id (e : Env) (id : AttractionId) (a : Attraction.t) :
  attractions (init e) !! id = Some a -> Attraction.id a = id.
Proof.
  intros Ha. assert (Hid : id < 5) by (apply (init_lookup e); eauto).
  apply (sampleAttractions_ids e) in Hid. destruct Hid as [b [Hin <-]].
  unfold init in Ha. rewrite (initSampleData_sample e _ b Hin) in Ha. congruence.
Qed.

Lemma init_rating (e e' : Env) (id : AttractionId) :
  Attraction.rating <$> (attractions (init e) !! id)
  = Attraction.rating <$> (attractions (init e') !! id).
Proof.
  destruct (N.lt_ge_cases id 5) as [Hid|Hid].
  - assert (Hcases : id = 0 \/ id = 1 \/ id = 2 \/ id = 3 \/ id = 4) by lia.
    destruct Hcases as [-> | [-> | [-> | [-> | ->]]]]; vm_compute; reflexivity.
  - unfold init. rewrite !initSampleData_other by exact Hid. reflexivity.
Qed.

(** ** Lists of reviews up to order *)

Lemma filter_Permutation {A} (f : A -> bool) (l l' : list A) :
  l ≡ₚ l' -> List.filter f l ≡ₚ List.filter f l'.
Proof.
  induction 1 as [|x l l' _ IH|x y l|l l' l'' _ IH1 _ IH2]; simpl.
  - reflexivity.
  - destruct (f x); [now constructor | exact IH].
  - destruct (f x), (f y); try reflexivity. apply perm_swap.
  - now transitivity (List.filter f l').
Qed.

Lemma reviewsFor_empty (attractionId : AttractionId) : reviewsFor ∅ attractionId = [].
Proof. unfold reviewsFor. now rewrite map_to_list_empty. Qed.

Lemma reviewsFor_insert (m : gmap N Review.t) (k : ReviewId) (r : Review.t)
    (attractionId : AttractionId) :
  m !! k = None ->
  reviewsFor (<[k := r]> m) attractionId
  ≡ₚ (if Review.attractionId r =? attractionId
      then r :: reviewsFor m attractionId else reviewsFor m attractionId).
Proof.
  intros Hk. unfold reviewsFor.
  transitivity (List.filter (fun r => Review.attractionId r =? attractionId)
                  (map snd ((k, r) :: map_to_list m))).
  - apply filter_Permutation, Permutation_map, map_to_list_insert, Hk.
  - simpl. destruct (Review.attractionId r =? attractionId); reflexivity.
Qed.

Lemma ratingSum_Permutation (l l' : list Review.t) :
  l ≡ₚ l' -> ratingSum l = ratingSum l'.
Proof.
  unfold ratingSum.
  induction 1 as [|x l l' _ IH|x y l|l l' l'' _ IH1 _ IH2]; simpl; lia.
Qed.

Lemma arithmeticMean_Permutation (l l' : list Review.t) :
  l ≡ₚ l' -> arithmeticMean l = arithmeticMean l'.
Proof.
  intros H. unfold arithmeticMean.
  now rewrite (ratingSum_Permutation l l' H), (Permutation_length H).
Qed.

(** ** Invariants of the reachable states *)

Lemma option_Forall2_Some_r {A B} (R : A -> B -> Prop) (o : option A) (b : B) :
  option_Forall2 R o (Some b) -> exists a, o = Some a /\ R a b.
Proof. inversion 1; eauto. Qed.

Lemma option_Forall2_is_Some {A B} (R : A -> B -> Prop) (o : option A) (o' : option B) :
  option_Forall2 R o o' -> (is_Some o <-> is_Some o').
Proof. destruct 1; split; intros [? ?]; eauto; discriminate. Qed.

Ltac state_simpl :=
  cbn [attractions reviews users payments nextAttractionId nextReviewId] in *.

Lemma reachable_catalog_inv (s : State) :
  reachable s ->
  exists e0,
    nextAttractionId s = 5
    /\ forall id,
        option_Forall2 sameButRating (attractions (init e0) !! id) (attractions s !! id).
Proof.
  induction 1 as [e0 | e s c _ [e0 [Hn Hcat]]].
  - exists e0. split; [apply (initSampleData_frame e0 initialFields)|].
    intros id. destruct (attractions (init e0) !! id); constructor.
    repeat split.
  - exists e0.
    destruct (step_cases e s c)
      as [(a & r & cm & p & x & _ & _ & Hx & ->) | [(a & n & cu & m & x & _ & _ & ->)
         | [(i & st & p & _ & _ & ->) | [(u & m & l & p & _ & _ & ->) | ->]]]];
      state_simpl; (split; [exact Hn|]); try exact Hcat.
    intros id. rewrite lookup_insert. case_decide as Hid; [subst id|apply Hcat].
    specialize (Hcat a). rewrite Hx in Hcat.
    destruct (option_Forall2_Some_r _ _ _ Hcat) as [seed [-> Hsame]].
    constructor. exact Hsame.
Qed.

Lemma reachable_attraction_ids (s : State) (id : AttractionId) :
  reachable s -> (is_Some (attractions s !! id) <-> id < 5).
Proof.
  intros Hs. destruct (reachable_catalog_inv s Hs) as [e0 [_ Hcat]].
  rewrite <- (init_lookup e0 id). symmetry.
  apply (option_Forall2_is_Some _ _ _ (Hcat id)).
Qed.

Lemma reachable_reviews_inv (s : State) :
  reachable s ->
  (forall k r, reviews s !! k = Some r ->
      Review.id r = k /\ k < nextReviewId s /\ 1 <= Review.rating r <= 5
      /\ Review.attractionId r < 5)
  /\ N.of_nat (size (reviews s)) = nextReviewId s.
Proof.
  induction 1 as [e0 | e s c Hs [Hrev Hsize]].
  - destruct (initSampleData_frame e0 initialFields) as (Hr & _ & _ & _ & Hn).
    unfold init. rewrite Hr, Hn. simpl. split; [|reflexivity].
    intros k r Hk. now rewrite lookup_empty in Hk.
  - destruct (step_cases e s c)
      as [(a & r & cm & p & x & _ & Hr & Hx & ->) | [(a & n & cu & m & x & _ & _ & ->)
         | [(i & st & p & _ & _ & ->) | [(u & m & l & p & _ & _ & ->) | ->]]]];
      state_simpl; try (split; assumption).
    assert (Hfresh : reviews s !! nextReviewId s = None).
    { destruct (reviews s !! nextReviewId s) as [r0|] eqn:E; [|reflexivity].
      apply Hrev in E. lia. }
    split.
    + intros k r0. rewrite lookup_insert. case_decide as Hk.
      * intros [= <-]. subst k. simpl. repeat split; try lia.
        apply (reachable_attraction_ids s a Hs). eauto.
      * intros Hk0. apply Hrev in Hk0. repeat split; try tauto; lia.
    + rewrite map_size_insert_None by exact Hfresh. lia.
Qed.

Lemma reachable_fresh_review_id (s : State) :
  reachable s -> reviews s !! nextReviewId s = None.
Proof.
  intros Hs. destruct (reviews s !! nextReviewId s) as [r|] eqn:E; [|reflexivity].
  apply (reachable_reviews_inv s Hs) in E. lia.
Qed.

Lemma reachable_rating_inv (s : State) :
  reachable s ->
  forall id a,
    attractions s !! id = Some a ->
    (reviewsFor (reviews s) id = [] ->
     forall e, Attraction.rating <$> (attractions (init e) !! id) = Some (Attraction.rating a))
    /\ (reviewsFor (reviews s) id <> [] ->
        Attraction.rating a = arithmeticMean (reviewsFor (reviews s) id)).
Proof.
  induction 1 as [e0 | e s c Hs IH].
  - intros id a Ha.
    destruct (initSampleData_frame e0 initialFields) as (Hr & _).
    unfold init in *. rewrite Hr. cbn [reviews initialFields].
    rewrite reviewsFor_empty. split; [|congruence].
    intros _ e. fold (init e). fold (init e0) in Ha.
    now rewrite (init_rating e e0), Ha.
  - pose proof (reachable_fresh_review_id s Hs) as Hfresh.
    destruct (step_cases e s c)
      as [(a & r & cm & p & x & _ & Hr & Hx & ->) | [(a & n & cu & m & x & _ & _ & ->)
         | [(i & st & p & _ & _ & ->) | [(u & m & l & p & _ & _ & ->) | ->]]]];
      state_simpl; try exact IH.
    intros id y. rewrite lookup_insert. case_decide as Hid.
    + subst id. intros [= <-].
      assert (Hin : In (newReview e s a r cm p)
                      (reviewsFor (<[nextReviewId s := newReview e s a r cm p]> (reviews s)) a)).
      { apply reviewsFor_In. split; [|reflexivity].
        exists (nextReviewId s). apply lookup_insert_eq. }
      split; [|reflexivity].
      intros Hnil. rewrite Hnil in Hin. destruct Hin.
    + intros Hy. specialize (IH id y Hy).
      pose proof (reviewsFor_insert (reviews s) (nextReviewId s) (newReview e s a r cm p)
                    id Hfresh) as Hperm.
      cbn [newReview Review.attractionId] in Hperm.
      apply N.eqb_neq in Hid. rewrite Hid in Hperm.
      split.
      * intros Hnil. apply IH. rewrite Hnil in Hperm.
        now apply Permutation_nil.
      * intros Hne. rewrite (arithmeticMean_Permutation _ _ Hperm). apply IH.
        intros Hnil. rewrite Hnil in Hperm. symmetry in Hperm.
        apply Permutation_nil in Hperm. contradiction.
Qed.

Lemma reachable_payments_inv (s : State) :
  reachable s ->
  forall k p,
    payments s !! k = Some p ->
    PaymentTransaction.id p = k
    /\ k = generatePaymentId (mkEnv "" "" (PaymentTransaction.createdAt p))
    /\ PaymentTransaction.attractionId p < 5
    /\ PaymentTransaction.qrCodeData p
       = "nowpayments:" ++ Nat_toText (PaymentTransaction.amount p) ++ "-"
         ++ PaymentTransaction.currency p.
Proof.
  induction 1 as [e0 | e s c Hs IH].
  - intros k p. destruct (initSampleData_frame e0 initialFields) as (_ & _ & Hp & _).
    unfold init. rewrite Hp. cbn [payments initialFields]. now rewrite lookup_empty.
  - destruct (step_cases e s c)
      as [(a & r & cm & p & x & _ & Hr & Hx & ->) | [(a & n & cu & m & x & _ & Hx & ->)
         | [(i & st & p & _ & Hp & ->) | [(u & m & l & p & _ & _ & ->) | ->]]]];
      state_simpl; try exact IH.
    + intros k p. rewrite lookup_insert. case_decide as Hk; [|apply IH].
      intros [= <-]. subst k. cbn. repeat split.
      apply (reachable_attraction_ids s a Hs). eauto.
    + intros k q. rewrite lookup_insert. case_decide as Hk; [|apply IH].
      intros [= <-]. subst k. apply IH in Hp. exact Hp.
Qed.

Lemma reachable_users_inv (s : State) :
  reachable s ->
  forall k p,
    users s !! k = Some p ->
    UserProfile.id p = k
    /\ UserProfile.visitedAttractions p = []
    /\ UserProfile.favoriteAttractions p = []
    /\ UserProfile.totalSpent p = 0.
Proof.
  induction 1 as [e0 | e s c Hs IH].
  - intros k p. destruct (initSampleData_frame e0 initialFields) as (_ & Hu & _).
    unfold init. rewrite Hu. cbn [users initialFields]. now rewrite lookup_empty.
  - destruct (step_cases e s c)
      as [(a & r & cm & p & x & _ & Hr & Hx & ->) | [(a & n & cu & m & x & _ & Hx & ->)
         | [(i & st & p & _ & Hp & ->) | [(u & m & l & p & _ & Hp & ->) | ->]]]];
      state_simpl; try exact IH.
    intros k q. rewrite lookup_insert. case_decide as Hk; [|apply IH].
    intros [= <-]. subst k.
    destruct Hp as [[_ ->] | [old [Hold ->]]]; cbn; [repeat split|].
    apply IH in Hold. exact Hold.
Qed.

(** ** Reviews never collide *)

(** In every reachable state the review counter is ahead of every stored
    review id and equals the number of stored reviews, each review is
    stored under its own id, and a successful [addReview] adds one entry
    and keeps every review that was stored. *)
Theorem review_ids_are_fresh (s : State) :
  reachable s ->
  (forall k r, reviews s !! k = Some r -> Review.id r = k /\ k < nextReviewId s)
  /\ reviews s !! nextReviewId s = None
  /\ N.of_nat (size (reviews s)) = nextReviewId s
  /\ (forall e attractionId rating comment photos reviewId,
         fst (addReview e s attractionId rating comment photos) = ok reviewId ->
         let s' := snd (addReview e s attractionId rating comment photos) in
         size (reviews s') = S (size (reviews s))
         /\ forall k r, reviews s !! k = Some r -> reviews s' !! k = Some r).
Proof.
  intros Hs. pose proof (reachable_reviews_inv s Hs) as [Hrev Hsize].
  pose proof (reachable_fresh_review_id s Hs) as Hfresh.
  split; [intros k r Hk; apply Hrev in Hk; tauto|].
  split; [exact Hfresh|]. split; [exact Hsize|].
  intros e a r cm p rid Hok.
  destruct (addReview_cases e s a r cm p) as [[_ E] | [(_ & _ & E) | (Hr & [x Hx] & _)]];
    try (rewrite E in Hok; discriminate).
  rewrite (addReview_success e s a r cm p x Hr Hx). cbn [snd reviews]. split.
  - now apply map_size_insert_None.
  - intros k r0 Hk. rewrite lookup_insert_ne; [exact Hk|]. congruence.
Qed.

(** Every review stored in a reachable state has a rating between 1 and 5
    and names an attraction that [getAttraction] finds. *)
Theorem stored_reviews_are_valid (s : State) (k : ReviewId) (r : Review.t) :
  reachable s ->
  reviews s !! k = Some r ->
  1 <= Review.rating r <= 5
  /\ is_Some (getAttraction s (Review.attractionId r)).
Proof.
  intros Hs Hk. apply (reachable_reviews_inv s Hs) in Hk.
  split; [tauto|]. unfold getAttraction, Trie_get.
  apply (reachable_attraction_ids s _ Hs). tauto.
Qed.

(** The integer sum from which an attraction's mean is computed lies
    between the number of its reviews and five times that number. *)
Theorem rating_sum_bounds (s : State) (attractionId : AttractionId) :
  reachable s ->
  let rs := reviewsFor (reviews s) attractionId in
  N.of_nat (length rs) <= ratingSum rs <= 5 * N.of_nat (length rs).
Proof.
  intros Hs rs.
  assert (Hall : forall r, In r rs -> 1 <= Review.rating r <= 5).
  { intros r Hin. apply reviewsFor_In in Hin. destruct Hin as [[k Hk] _].
    apply (reachable_reviews_inv s Hs) in Hk. tauto. }
  clearbody rs. unfold ratingSum.
  induction rs as [|r rs IH]; simpl; [lia|].
  assert (1 <= Review.rating r <= 5) by (apply Hall; now left).
  assert (N.of_nat (length rs) <= fold_right N.add 0 (map Review.rating rs)
          <= 5 * N.of_nat (length rs)) by (apply IH; intros; apply Hall; now right).
  lia.
Qed.

(** ** The catalog never changes *)

(** In every reachable state the attraction counter is 5, [getAttraction]
    finds exactly the ids 0 to 4, and each stored attraction is the sample
    attraction of that id except for its [rating] and [updatedAt]. *)
Theorem catalog_is_fixed (s : State) :
  reachable s ->
  nextAttractionId s = 5
  /\ (forall id, is_Some (getAttraction s id) <-> id < 5)
  /\ exists e0,
      forall id a,
        getAttraction s id = Some a ->
        Attraction.id a = id
        /\ exists seed, In seed (sampleAttractions e0) /\ sameButRating seed a.
Proof.
  intros Hs. destruct (reachable_catalog_inv s Hs) as [e0 [Hn Hcat]].
  split; [exact Hn|]. split; [intros id; apply (reachable_attraction_ids s id Hs)|].
  exists e0. unfold getAttraction, Trie_get. intros id a Ha.
  specialize (Hcat id). rewrite Ha in Hcat.
  destruct (option_Forall2_Some_r _ _ _ Hcat) as [seed [Hseed Hsame]].
  pose proof (init_lookup_id e0 id seed Hseed) as Hseedid.
  split; [destruct Hsame as [Hid _]; congruence|].
  exists seed. split; [|exact Hsame].
  assert (Hlt : id < 5) by (apply (init_lookup e0); eauto).
  apply (sampleAttractions_ids e0) in Hlt. destruct Hlt as [b [Hin Hb]].
  unfold init in Hseed. rewrite <- Hb in Hseed.
  rewrite (initSampleData_sample e0 _ b Hin) in Hseed. congruence.
Qed.

(** In a reachable state [addReview] succeeds exactly for a rating between
    1 and 5 on an attraction id below 5, and [createPayment] exactly for an
    attraction id below 5. *)
Theorem calls_succeed_on_seed_ids (s : State) :
  reachable s ->
  (forall e attractionId rating comment photos,
      (exists reviewId, fst (addReview e s attractionId rating comment photos) = ok reviewId)
      <-> 1 <= rating <= 5 /\ attractionId < 5)
  /\ (forall e attractionId amount currency paymentMethod,
         (exists tx, fst (createPayment e s attractionId amount currency paymentMethod) = ok tx)
         <-> attractionId < 5).
Proof.
  intros Hs. split.
  - intros e a r cm p. rewrite <- (reachable_attraction_ids s a Hs).
    destruct (addReview_cases e s a r cm p) as [[Hr E] | [(Hr & Ha & E) | (Hr & Hx & E)]];
      rewrite ?E; cbn [fst].
    + split; [intros [? ?]; discriminate | intros [? _]; lia].
    + split; [intros [? ?]; discriminate|]. rewrite Ha. intros [_ [? ?]]. discriminate.
    + split; eauto.
  - intros e a n cu m. rewrite <- (reachable_attraction_ids s a Hs).
    destruct (createPayment_cases e s a n cu m) as [[Ha E] | [Hx [tx E]]];
      rewrite ?E; cbn [fst].
    + split; [intros [? ?]; discriminate|]. rewrite Ha. intros [? ?]. discriminate.
    + split; eauto.
Qed.

(** ** The rating invariant *)

(** In every reachable state the rating of a stored attraction is its
    seed rating while no stored review names it, and otherwise the
    arithmetic mean of the ratings of the stored reviews that name it. *)
Theorem rating_is_seed_or_mean (s : State) (id : AttractionId) (a : Attraction.t) :
  reachable s ->
  getAttraction s id = Some a ->
  (reviewsFor (reviews s) id = [] ->
   forall e, Attraction.rating <$> getAttraction (init e) id = Some (Attraction.rating a))
  /\ (reviewsFor (reviews s) id <> [] ->
      Attraction.rating a = arithmeticMean (reviewsFor (reviews s) id)).
Proof. intros Hs Ha. exact (reachable_rating_inv s Hs id a Ha). Qed.

(** ** Listing reviews *)

Lemma getReviews_eq (s : State) (attractionId : AttractionId) :
  getReviews s attractionId = rev (reviewsFor (reviews s) attractionId).
Proof. exact (getReviewsInternal_eq s attractionId). Qed.

(** [getReviews] returns exactly the stored reviews that name the
    attraction, never more than the store holds, and nothing for an id
    that a reachable state does not store. *)
Theorem getReviews_exact :
  (forall s attractionId r,
      In r (getReviews s attractionId)
      <-> (exists id, reviews s !! id = Some r) /\ Review.attractionId r = attractionId)
  /\ (forall s attractionId,
         length (getReviews s attractionId) <= size (reviews s))%nat
  /\ (forall s attractionId,
         reachable s -> 5 <= attractionId -> getReviews s attractionId = []).
Proof.
  split; [|split].
  - intros s a r. rewrite getReviews_eq, <- in_rev. apply reviewsFor_In.
  - intros s a. rewrite getReviews_eq, length_rev. unfold reviewsFor.
    rewrite <- length_map_to_list, <- (length_map snd (map_to_list (reviews s))).
    generalize (map snd (map_to_list (reviews s))). intros l.
    induction l as [|x l IH]; simpl; [lia|].
    destruct (Review.attractionId x =? a); simpl; lia.
  - intros s a Hs Ha. rewrite getReviews_eq.
    destruct (reviewsFor (reviews s) a) as [|r rs] eqn:E; [reflexivity|].
    assert (Hin : In r (reviewsFor (reviews s) a)) by (rewrite E; now left).
    apply reviewsFor_In in Hin. destruct Hin as [[k Hk] Hra].
    apply (reachable_reviews_inv s Hs) in Hk. lia.
Qed.

(** After a successful [addReview] in a reachable state, [getReviews] of
    the reviewed attraction is the former list with the new review added,
    and the list of every other attraction is the former one, both up to
    order. *)
Theorem getReviews_after_addReview (s : State) (e : Env) (attractionId : AttractionId)
    (rating : N) (comment : Text) (photos : list Text) (reviewId : ReviewId) :
  reachable s ->
  fst (addReview e s attractionId rating comment photos) = ok reviewId ->
  let s' := snd (addReview e s attractionId rating comment photos) in
  getReviews s' attractionId
  ≡ₚ newReview e s attractionId rating comment photos :: getReviews s attractionId
  /\ forall other, other <> attractionId -> getReviews s' other ≡ₚ getReviews s other.
Proof.
  intros Hs Hok.
  destruct (addReview_cases e s attractionId rating comment photos)
    as [[_ E] | [(_ & _ & E) | (Hr & [x Hx] & _)]];
    try (rewrite E in Hok; discriminate).
  rewrite (addReview_success e s attractionId rating comment photos x Hr Hx).
  cbn [snd]. rewrite !getReviews_eq. state_simpl.
  pose proof (reachable_fresh_review_id s Hs) as Hfresh.
  split.
  - rewrite <- !Permutation_rev.
    rewrite (reviewsFor_insert _ _ _ attractionId Hfresh).
    cbn [newReview Review.attractionId]. now rewrite N.eqb_refl.
  - intros other Hother. rewrite !getReviews_eq, <- !Permutation_rev. state_simpl.
    rewrite (reviewsFor_insert _ _ _ other Hfresh).
    cbn [newReview Review.attractionId].
    assert (E : (attractionId =? other) = false) by (apply N.eqb_neq; congruence).
    now rewrite E.
Qed.

(** ** Listing and searching the catalog *)

Lemma getAttractions_eq (s : State) :
  getAttractions s = rev (map snd (Trie_iter (attractions s))).
Proof.
  unfold getAttractions.
  rewrite (fold_left_push _ (fun _ => true) snd) by (intros r [id x]; reflexivity).
  rewrite app_nil_r. f_equal. f_equal.
  induction (Trie_iter (attractions s)) as [|x l IH]; simpl; [reflexivity|].
  now rewrite IH.
Qed.

Lemma searchAttractions_eq {textCase : TextCase} (s : State) (query : Text)
    (category language : option Text) :
  searchAttractions s query category language
  = rev (List.filter (searchMatches (Text_toLowerCase query) category language)
           (map snd (Trie_iter (attractions s)))).
Proof.
  unfold searchAttractions.
  rewrite (fold_left_push _
             (fun kv => searchMatches (Text_toLowerCase query) category language (snd kv))
             snd) by (intros r [id x]; reflexivity).
  rewrite app_nil_r. f_equal.
  induction (Trie_iter (attractions s)) as [|[id x] l IH]; simpl; [reflexivity|].
  destruct (searchMatches _ _ _ x); simpl; now rewrite IH.
Qed.

Lemma filter_all {A} (f : A -> bool) (l : list A) :
  (forall x, In x l -> f x = true) -> List.filter f l = l.
Proof.
  induction l as [|x l IH]; intros H; simpl; [reflexivity|].
  rewrite (H x) by now left. f_equal. apply IH. intros y Hy. apply H. now right.
Qed.

(** [getAttractions] returns exactly the attractions that [getAttraction]
    can find, one per stored id, and it is what [searchAttractions]
    returns for the empty query without filters. *)
Theorem getAttractions_lists_catalog {textCase : TextCase} (s : State) :
  (forall a, In a (getAttractions s) <-> exists id, getAttraction s id = Some a)
  /\ length (getAttractions s) = size (attractions s)
  /\ searchAttractions s "" None None = getAttractions s.
Proof.
  split; [|split].
  - intros a. rewrite getAttractions_eq, <- in_rev, in_map_iff.
    unfold getAttraction, Trie_get. split.
    + intros [[id x] [<- Hin]]. exists id. now apply Trie_iter_In.
    + intros [id Hid]. exists (id, a). split; [reflexivity | now apply Trie_iter_In].
  - rewrite getAttractions_eq, length_rev, length_map. apply length_map_to_list.
  - rewrite searchAttractions_eq, getAttractions_eq. f_equal.
    apply filter_all. intros a _. apply (searchMatches_spec "" None None a).
    split; [left; rewrite Text_toLowerCase_empty; apply isSubstring_empty|].
    split; intros ? [=].
Qed.

Lemma Text_append_assoc (a b c : Text) : (a ++ b) ++ c = a ++ b ++ c.
Proof.
  induction a as [|x a IH]; [reflexivity|].
  change (String x ((a ++ b) ++ c) = String x (a ++ b ++ c)). now rewrite IH.
Qed.

Lemma isSubstring_trans (p q t : Text) :
  isSubstring p q -> isSubstring q t -> isSubstring p t.
Proof.
  intros [pre [post ->]] [pre' [post' ->]].
  exists (pre' ++ pre), (post ++ post').
  now rewrite !Text_append_assoc.
Qed.

Lemma searchAttractions_In {textCase : TextCase} (s : State) (query : Text)
    (category language : option Text)
    (a : Attraction.t) :
  In a (searchAttractions s query category language)
  <-> (exists id, attractions s !! id = Some a)
      /\ queryCriterion query a /\ categoryCriterion category a
      /\ languageCriterion language a.
Proof.
  rewrite searchAttractions_eq, <- in_rev, filter_In, searchMatches_spec, in_map_iff.
  split.
  - intros [[[id x] [<- Hin]] Hm]. split; [|exact Hm]. exists id. now apply Trie_iter_In.
  - intros [[id Hid] Hm]. split; [|exact Hm].
    exists (id, a). split; [reflexivity | now apply Trie_iter_In].
Qed.

(** A search never returns more when the query is extended or a filter is
    added: whatever is found for a query is found for every query whose
    lowercase form occurs in its lowercase form, with or without the
    category and language filters, and is in the full listing. *)
Theorem search_refinement_narrows {textCase : TextCase} (s : State) (shorter longer : Text)
    (category language : option Text) (a : Attraction.t) :
  isSubstring (Text_toLowerCase shorter) (Text_toLowerCase longer) ->
  In a (searchAttractions s longer category language) ->
  In a (searchAttractions s shorter category language)
  /\ In a (searchAttractions s shorter None None)
  /\ In a (getAttractions s).
Proof.
  intros Hsub Hin. apply searchAttractions_In in Hin.
  destruct Hin as (Hid & Hq & Hc & Hl).
  assert (Hq' : queryCriterion shorter a).
  { unfold queryCriterion in *. cbv zeta in *.
    destruct Hq as [H | [H | [tag [Htag H]]]].
    - left. eapply isSubstring_trans; eauto.
    - right; left. eapply isSubstring_trans; eauto.
    - right; right. exists tag. split; [exact Htag|]. eapply isSubstring_trans; eauto. }
  split; [|split].
  - apply searchAttractions_In. tauto.
  - apply searchAttractions_In. repeat split; try assumption; intros ? [=].
  - rewrite getAttractions_eq, <- in_rev, in_map_iff.
    destruct Hid as [id Hid]. exists (id, a). split; [reflexivity | now apply Trie_iter_In].
Qed.

(** ** Payments *)

(** A created payment is stored under the id it returns, and a status
    update with that id then succeeds and leaves, besides the new status,
    the state that the creation left. *)
Theorem createPayment_then_updatePaymentStatus (e : Env) (s : State)
    (attractionId : AttractionId) (amount : N) (currency paymentMethod status : Text)
    (tx : PaymentTransaction.t) :
  fst (createPayment e s attractionId amount currency paymentMethod) = ok tx ->
  let s1 := snd (createPayment e s attractionId amount currency paymentMethod) in
  payments s1 !! PaymentTransaction.id tx = Some tx
  /\ updatePaymentStatus s1 (PaymentTransaction.id tx) status
     = (ok tt,
        mkState (attractions s) (reviews s) (users s)
          (<[PaymentTransaction.id tx := withStatus tx status]> (payments s))
          (nextAttractionId s) (nextReviewId s)).
Proof.
  unfold createPayment, Trie_get.
  destruct (attractions s !! attractionId) as [x|]; [|discriminate].
  cbn [fst snd]. intros [= <-]. cbn [PaymentTransaction.id].
  unfold updatePaymentStatus, Trie_get, set_payments, Trie_put. cbn [fst]. state_simpl.
  rewrite lookup_insert_eq. split; [reflexivity|].
  cbn [fst]. state_simpl. now rewrite insert_insert_eq.
Qed.

(** Of two status updates of one payment the second wins: the outcome is
    that of the second update alone.  An update with the status the
    payment already has changes nothing. *)
Theorem updatePaymentStatus_last_write_wins :
  (forall s paymentId status1 status2,
      updatePaymentStatus (snd (updatePaymentStatus s paymentId status1)) paymentId status2
      = updatePaymentStatus s paymentId status2)
  /\ (forall s paymentId payment,
         payments s !! paymentId = Some payment ->
         updatePaymentStatus s paymentId (PaymentTransaction.status payment) = (ok tt, s)).
Proof.
  split.
  - intros s i st1 st2. unfold updatePaymentStatus at 2. unfold Trie_get.
    destruct (payments s !! i) as [p|] eqn:Hp; cbn [snd].
    + unfold updatePaymentStatus, Trie_get, set_payments, Trie_put. cbn [fst]. state_simpl.
      rewrite lookup_insert_eq. cbn [fst]. state_simpl. rewrite insert_insert_eq, Hp.
      reflexivity.
    + reflexivity.
  - intros s i p Hp. unfold updatePaymentStatus, Trie_get, set_payments, Trie_put.
    rewrite Hp. cbn [fst]. f_equal.
    assert (E : withStatus p (PaymentTransaction.status p) = p) by now destruct p.
    rewrite E, (insert_id _ _ _ Hp). now destruct s.
Qed.

(** Every payment stored in a reachable state is stored under its own id,
    names one of the attraction ids 0 to 4, carries the payload made of
    its amount and currency, and has the id generated from its creation
    time; so two stored payments with the same creation time are one and
    the same entry. *)
Theorem stored_payments_are_consistent (s : State) :
  reachable s ->
  (forall k p,
      payments s !! k = Some p ->
      PaymentTransaction.id p = k
      /\ PaymentTransaction.attractionId p < 5
      /\ PaymentTransaction.qrCodeData p
         = generateQRCodeData "" (PaymentTransaction.amount p) (PaymentTransaction.currency p)
      /\ k = generatePaymentId (mkEnv "" "" (PaymentTransaction.createdAt p)))
  /\ (forall k1 k2 p1 p2,
         payments s !! k1 = Some p1 ->
         payments s !! k2 = Some p2 ->
         PaymentTransaction.createdAt p1 = PaymentTransaction.createdAt p2 ->
         k1 = k2 /\ p1 = p2).
Proof.
  intros Hs. pose proof (reachable_payments_inv s Hs) as Hinv. split.
  - intros k p Hk. apply Hinv in Hk. tauto.
  - intros k1 k2 p1 p2 H1 H2 Ht.
    pose proof (Hinv _ _ H1) as (_ & E1 & _). pose proof (Hinv _ _ H2) as (_ & E2 & _).
    assert (Hk : k1 = k2) by congruence.
    split; [exact Hk | congruence].
Qed.

(** ** Profiles *)

(** In every reachable state a profile is stored under its own [id], its
    visited and favorite lists are empty and its [totalSpent] is 0: no
    update call records a visit, a favorite or a spend. *)
Theorem profiles_record_no_activity (s : State) (key : Principal) (p : UserProfile.t) :
  reachable s ->
  users s !! key = Some p ->
  UserProfile.id p = key
  /\ UserProfile.visitedAttractions p = []
  /\ UserProfile.favoriteAttractions p = []
  /\ UserProfile.totalSpent p = 0.
Proof. intros Hs. apply (reachable_users_inv s Hs). Qed.

(** After [updateUserProfile], [getUserProfile] returns a profile with the
    username, email and language just written, to whoever calls it on the
    same service. *)
Theorem getUserProfile_after_update (writer reader : Env) (s : State)
    (username email preferredLanguage : Text) :
  this reader = this writer ->
  exists p,
    getUserProfile reader (updateUserProfile writer s username email preferredLanguage)
    = Some p
    /\ UserProfile.username p = username
    /\ UserProfile.email p = email
    /\ UserProfile.preferredLanguage p = preferredLanguage
    /\ (forall old, getUserProfile writer s = Some old ->
                    UserProfile.createdAt p = UserProfile.createdAt old
                    /\ UserProfile.id p = UserProfile.id old).
Proof.
  intros Hthis. unfold getUserProfile, Trie_get. rewrite Hthis.
  destruct (users s !! this writer) as [old|] eqn:Hu.
  - rewrite (updateUserProfile_existing _ _ _ _ _ _ Hu). state_simpl.
    rewrite lookup_insert_eq. eexists. split; [reflexivity|]. cbn.
    do 3 (split; [reflexivity|]). now intros ? [= <-].
  - rewrite (updateUserProfile_new _ _ _ _ _ Hu). state_simpl.
    rewrite lookup_insert_eq. eexists. split; [reflexivity|]. cbn.
    do 3 (split; [reflexivity|]). intros ? [=].
Qed.

(** ** Seeding *)

(** [initSampleData] on any state puts each sample attraction under its
    id, replacing what was stored under the ids 0 to 4, keeps every
    attraction with a larger id and the other three stores, and advances
    the attraction counter by five whether or not the ids were in use. *)
Theorem initSampleData_overwrites (e : Env) (s : State) :
  (forall a, In a (sampleAttractions e) ->
             getAttraction (initSampleData e s) (Attraction.id a) = Some a)
  /\ (forall id, id < 5 ->
                 exists a, In a (sampleAttractions e)
                           /\ getAttraction (initSampleData e s) id = Some a)
  /\ (forall id, 5 <= id -> getAttraction (initSampleData e s) id = getAttraction s id)
  /\ reviews (initSampleData e s) = reviews s
  /\ users (initSampleData e s) = users s
  /\ payments (initSampleData e s) = payments s
  /\ nextAttractionId (initSampleData e s) = nextAttractionId s + 5
  /\ nextReviewId (initSampleData e s) = nextReviewId s.
Proof.
  unfold getAttraction, Trie_get.
  split; [intros a; apply initSampleData_sample|].
  split.
  { intros id Hid. apply (sampleAttractions_ids e) in Hid. destruct Hid as [a [Hin <-]].
    exists a. split; [exact Hin | now apply initSampleData_sample]. }
  split; [intros id; apply initSampleData_other|].
  apply initSampleData_frame.
Qed.

(** ** Decimal numerals *)

Lemma string_of_uint_app (d d' : Decimal.uint) :
  NilEmpty.string_of_uint (Decimal.app d d')
  = NilEmpty.string_of_uint d ++ NilEmpty.string_of_uint d'.
Proof.
  rewrite <- (DecimalFacts.of_list_to_list (Decimal.app d d')), DecimalFacts.app_spec.
  rewrite <- (DecimalFacts.of_list_to_list d) at 2.
  induction (DecimalFacts.to_list d) as [|x l IH]; simpl.
  - now rewrite DecimalFacts.of_list_to_list.
  - destruct x; simpl; now rewrite IH.
Qed.

Lemma string_of_uint_inj (d d' : Decimal.uint) :
  NilEmpty.string_of_uint d = NilEmpty.string_of_uint d' -> d = d'.
Proof.
  intros H. apply (f_equal NilEmpty.uint_of_string) in H.
  rewrite !NilEmpty.usu in H. congruence.
Qed.

Lemma Nat_toText_inj (n m : N) : Nat_toText n = Nat_toText m -> n = m.
Proof.
  unfold Nat_toText. intros H. apply string_of_uint_inj in H.
  now apply DecimalN.Unsigned.to_uint_inj.
Qed.

Lemma string_of_uint_noDash (d : Decimal.uint) : noDash (NilEmpty.string_of_uint d).
Proof. induction d; simpl; (exact I || (split; [discriminate | assumption])). Qed.

Lemma split_at_first_dash (d1 d2 c1 c2 : Text) :
  noDash d1 -> noDash d2 ->
  d1 ++ String "-" c1 = d2 ++ String "-" c2 ->
  d1 = d2 /\ c1 = c2.
Proof.
  revert d2. induction d1 as [|x d1 IH]; intros [|y d2] H1 H2 H.
  - injection H as ->. now split.
  - change (String "-" c1 = String y (d2 ++ String "-" c2)) in H.
    injection H as <- _. destruct H2 as [H2 _]. now destruct H2.
  - change (String x (d1 ++ String "-" c1) = String "-" c2) in H.
    injection H as -> _. destruct H1 as [H1 _]. now destruct H1.
  - change (String x (d1 ++ String "-" c1) = String y (d2 ++ String "-" c2)) in H.
    injection H as -> H. destruct H1 as [_ H1], H2 as [_ H2].
    destruct (IH d2 H1 H2 H) as [-> ->]. now split.
Qed.

(** The payment payload determines the amount and the currency it was
    made from, and nothing else: it is the same for every attraction
    name. *)
Theorem generateQRCodeData_injective (name1 name2 : Text) (amount1 amount2 : N)
    (currency1 currency2 : Text) :
  generateQRCodeData name1 amount1 currency1 = generateQRCodeData name2 amount2 currency2
  <-> amount1 = amount2 /\ currency1 = currency2.
Proof.
  split; [|now intros [-> ->]].
  unfold generateQRCodeData, Text_concat. cbv zeta. intros H.
  apply (inj (String.append "nowpayments:")) in H.
  change ("-" ++ currency1) with (String "-" currency1) in H.
  change ("-" ++ currency2) with (String "-" currency2) in H.
  apply split_at_first_dash in H; try apply string_of_uint_noDash.
  destruct H as [Ha Hc]. split; [now apply Nat_toText_inj | exact Hc].
Qed.

(** ** Payment ids and the system time *)

Lemma of_uint_app (d d' : Decimal.uint) :
  N.of_uint (Decimal.app d d')
  = N.of_uint d * 10 ^ DecimalPos.Unsigned.usize d' + N.of_uint d'.
Proof.
  unfold N.of_uint. rewrite !DecimalPos.Unsigned.of_uint_alt.
  assert (E : Decimal.rev (Decimal.app d d') = Decimal.revapp d' (Decimal.rev d)).
  { apply DecimalFacts.to_list_inj.
    now rewrite DecimalFacts.rev_spec, DecimalFacts.app_spec, DecimalFacts.revapp_spec,
      DecimalFacts.rev_spec, rev_app_distr, rev_append_rev. }
  rewrite E, DecimalPos.Unsigned.of_lu_revapp. lia.
Qed.

Lemma pow_usize_small (r : N) :
  r < 10000 ->
  10 ^ DecimalPos.Unsigned.usize (N.to_uint r)
  = if r <? 10 then 10 else if r <? 100 then 100 else if r <? 1000 then 1000 else 10000.
Proof.
  intros Hr.
  assert (Hall : forallb
                   (fun r => 10 ^ DecimalPos.Unsigned.usize (N.to_uint r)
                             =? (if r <? 10 then 10 else if r <? 100 then 100
                                 else if r <? 1000 then 1000 else 10000))
                   (map N.of_nat (seq 0 (N.to_nat 10000))) = true)
    by (vm_compute; reflexivity).
  rewrite forallb_forall in Hall. apply N.eqb_eq, Hall.
  apply in_map_iff. exists (N.to_nat r). split; [lia|]. apply in_seq. lia.
Qed.

Lemma abs_rem_10000 (t : Z) : Int_abs (Z.rem t 10000) = Int_abs t mod 10000.
Proof.
  unfold Int_abs. apply N2Z.inj. rewrite N2Z.inj_mod, !N2Z.inj_abs_N.
  rewrite <- Z.rem_abs by lia. change (Z.abs 10000) with 10000%Z.
  apply Z.rem_mod_nonneg; lia.
Qed.

Lemma id_digits_injective (n1 n2 : N) :
  n1 * 10 ^ DecimalPos.Unsigned.usize (N.to_uint (n1 mod 10000)) + n1 mod 10000
  = n2 * 10 ^ DecimalPos.Unsigned.usize (N.to_uint (n2 mod 10000)) + n2 mod 10000 ->
  n1 = n2.
Proof.
  pose proof (N.div_mod n1 10000 ltac:(lia)) as E1.
  pose proof (N.mod_lt n1 10000 ltac:(lia)) as B1.
  pose proof (N.div_mod n2 10000 ltac:(lia)) as E2.
  pose proof (N.mod_lt n2 10000 ltac:(lia)) as B2.
  rewrite !pow_usize_small by assumption.
  generalize dependent (n1 mod 10000). generalize dependent (n2 mod 10000).
  generalize dependent (n1 / 10000). generalize dependent (n2 / 10000).
  intros q2 q1 r2 E2 B2 r1 E1 B1.
  destruct (N.ltb_spec r1 10), (N.ltb_spec r1 100), (N.ltb_spec r1 1000),
    (N.ltb_spec r2 10), (N.ltb_spec r2 100), (N.ltb_spec r2 1000); lia.
Qed.

(** Two payment ids generated at system times that are not negative are
    equal exactly when the two times are equal: the store can lose a
    payment to another only if both were created at the same time. *)
Theorem generatePaymentId_injective (e1 e2 : Env) :
  (0 <= now e1)%Z ->
  (0 <= now e2)%Z ->
  (generatePaymentId e1 = generatePaymentId e2 <-> now e1 = now e2).
Proof.
  intros H1 H2. unfold generatePaymentId. cbv zeta. split; [|now intros ->].
  unfold Text_concat. intros H.
  apply (inj (String.append "tx_")) in H.
  unfold Nat_toText in H. rewrite <- !string_of_uint_app in H.
  apply string_of_uint_inj in H. apply (f_equal N.of_uint) in H.
  rewrite !of_uint_app, !DecimalN.Unsigned.of_to, !abs_rem_10000 in H.
  apply id_digits_injective in H. unfold Int_abs in H.
  apply (f_equal Z.of_N) in H. rewrite !N2Z.inj_abs_N in H. lia.
Qed.

(** ** Categories *)

Lemma reachable_category (s : State) (id : AttractionId) (a : Attraction.t) :
  reachable s ->
  attractions s !! id = Some a ->
  In (Attraction.category a) ["natural"; "historical"; "museum"; "restaurant"].
Proof.
  intros Hs Ha. destruct (reachable_catalog_inv s Hs) as [e0 [_ Hcat]].
  specialize (Hcat id). rewrite Ha in Hcat.
  destruct (option_Forall2_Some_r _ _ _ Hcat) as [seed [Hseed Hsame]].
  assert (Hlt : id < 5) by (apply (init_lookup e0); eauto).
  apply (sampleAttractions_ids e0) in Hlt. destruct Hlt as [b [Hin Hb]].
  unfold init in Hseed. rewrite <- Hb, (initSampleData_sample e0 _ b Hin) in Hseed.
  injection Hseed as <-.
  destruct Hsame as (_ & _ & _ & _ & Hc & _). rewrite <- Hc.
  simpl in Hin. destruct Hin as [<- | [<- | [<- | [<- | [<- | []]]]]]; simpl; tauto.
Qed.

(** In a reachable state every stored attraction has one of the four
    categories of the seed, so a search for any other category returns
    nothing, whatever the query and the language. *)
Theorem search_by_unused_category {textCase : TextCase} (s : State) (query category : Text)
    (language : option Text) :
  reachable s ->
  ~ In category ["natural"; "historical"; "museum"; "restaurant"] ->
  searchAttractions s query (Some category) language = [].
Proof.
  intros Hs Hc.
  destruct (searchAttractions s query (Some category) language) as [|a l] eqn:E;
    [reflexivity|].
  assert (Hin : In a (searchAttractions s query (Some category) language))
    by (rewrite E; now left).
  apply searchAttractions_In in Hin. destruct Hin as ([id Hid] & _ & Hcat & _).
  specialize (Hcat category eq_refl). destruct Hc. rewrite <- Hcat.
  exact (reachable_category s id a Hs Hid).
Qed.

(** ** Payments are never removed *)




(** ** The further properties at the sample run *)

Lemma review_ids_are_fresh_witness :
  reviews Scenario.paid !! nextReviewId Scenario.paid = None
  /\ N.of_nat (size (reviews Scenario.paid)) = nextReviewId Scenario.paid.
Proof.
  destruct (review_ids_are_fresh Scenario.paid reachable_sample_run) as (_ & H1 & H2 & _).
  split; [exact H1 | exact H2].
Defined.

Lemma stored_reviews_are_valid_witness :
  exists r, reviews Scenario.paid !! 1 = Some r
            /\ 1 <= Review.rating r <= 5
            /\ is_Some (getAttraction Scenario.paid (Review.attractionId r)).
Proof.
  assert (H : is_Some (reviews Scenario.paid !! 1)) by (vm_compute; eexists; reflexivity).
  destruct H as [r Hr]. exists r. split; [exact Hr|].
  exact (stored_reviews_are_valid Scenario.paid 1 r reachable_sample_run Hr).
Defined.

Lemma rating_sum_bounds_witness :
  let rs := reviewsFor (reviews Scenario.paid) 0 in
  length rs = 2%nat /\ N.of_nat (length rs) <= ratingSum rs <= 5 * N.of_nat (length rs).
Proof.
  split; [vm_compute; reflexivity|].
  exact (rating_sum_bounds Scenario.paid 0 reachable_sample_run).
Defined.

Lemma catalog_is_fixed_witness :
  nextAttractionId Scenario.paid = 5
  /\ (forall id, is_Some (getAttraction Scenario.paid id) <-> id < 5).
Proof.
  destruct (catalog_is_fixed Scenario.paid reachable_sample_run) as (H1 & H2 & _).
  split; [exact H1 | exact H2].
Defined.

Lemma calls_succeed_on_seed_ids_witness :
  (exists reviewId, fst (addReview Scenario.later Scenario.paid 4 3 "Good food" []) = ok reviewId)
  /\ ~ (exists tx, fst (createPayment Scenario.later Scenario.paid 5 100 "EUR" "ICP") = ok tx).
Proof.
  destruct (calls_succeed_on_seed_ids Scenario.paid reachable_sample_run) as [Hadd Hpay].
  split.
  - apply Hadd. lia.
  - intros H. apply Hpay in H. lia.
Defined.

Lemma rating_is_seed_or_mean_witness :
  exists a, getAttraction Scenario.paid 0 = Some a
            /\ Attraction.rating a = arithmeticMean (reviewsFor (reviews Scenario.paid) 0)
            /\ Attraction.rating a = 4.5%float.
Proof.
  assert (H : is_Some (getAttraction Scenario.paid 0)) by (vm_compute; eexists; reflexivity).
  destruct H as [a Ha]. exists a. split; [exact Ha|].
  assert (Hmean : Attraction.rating a = arithmeticMean (reviewsFor (reviews Scenario.paid) 0)).
  { apply (rating_is_seed_or_mean Scenario.paid 0 a reachable_sample_run Ha).
    vm_compute. discriminate. }
  split; [exact Hmean|]. rewrite Hmean. vm_compute. reflexivity.
Defined.

Lemma getReviews_exact_witness :
  length (getReviews Scenario.paid 0) = 2%nat /\ getReviews Scenario.paid 7 = [].
Proof.
  split; [vm_compute; reflexivity|].
  apply (proj2 (proj2 getReviews_exact) Scenario.paid 7 reachable_sample_run). lia.
Defined.

Lemma getReviews_after_addReview_witness :
  getReviews (snd (addReview Scenario.later Scenario.paid 0 3 "Fine" [])) 0
  ≡ₚ newReview Scenario.later Scenario.paid 0 3 "Fine" [] :: getReviews Scenario.paid 0.
Proof.
  assert (H : fst (addReview Scenario.later Scenario.paid 0 3 "Fine" []) = ok 2)
    by (vm_compute; reflexivity).
  exact (proj1 (getReviews_after_addReview Scenario.paid Scenario.later 0 3 "Fine" [] 2
                  reachable_sample_run H)).
Defined.

Lemma search_refinement_narrows_witness :
  exists a, In a (@searchAttractions asciiCase Scenario.installed "Salt Lake" None None)
            /\ In a (@searchAttractions asciiCase Scenario.installed "lake" None None)
            /\ In a (getAttractions Scenario.installed).
Proof.
  assert (Hsub : isSubstring (@Text_toLowerCase asciiCase "lake")
                   (@Text_toLowerCase asciiCase "Salt Lake"))
    by (exists "salt ", ""; reflexivity).
  assert (H : exists a, In a (@searchAttractions asciiCase Scenario.installed "Salt Lake"
                                None None))
    by (vm_compute; eexists; left; reflexivity).
  destruct H as [a Ha]. exists a. split; [exact Ha|].
  destruct (@search_refinement_narrows asciiCase Scenario.installed "lake" "Salt Lake"
              None None a Hsub Ha) as (H1 & _ & H3).
  split; [exact H1 | exact H3].
Defined.

Lemma createPayment_then_updatePaymentStatus_witness :
  fst (updatePaymentStatus Scenario.paid (PaymentTransaction.id Scenario.bobTx) "failed")
  = ok tt.
Proof.
  assert (H : fst (createPayment Scenario.bob1 Scenario.profiled 2 300 "EUR" "ICP")
              = ok Scenario.bobTx) by (vm_compute; reflexivity).
  destruct (createPayment_then_updatePaymentStatus Scenario.bob1 Scenario.profiled 2 300
              "EUR" "ICP" "failed" Scenario.bobTx H) as [_ Hupd].
  unfold Scenario.paid, Scenario.bobPays. now rewrite Hupd.
Defined.

Lemma updatePaymentStatus_last_write_wins_witness :
  updatePaymentStatus Scenario.paid "tx_17000000040000000000" "pending"
  = (ok tt, Scenario.paid).
Proof.
  assert (H : payments Scenario.paid !! "tx_17000000040000000000" = Some Scenario.bobTx)
    by (vm_compute; reflexivity).
  exact (proj2 updatePaymentStatus_last_write_wins Scenario.paid
           "tx_17000000040000000000" Scenario.bobTx H).
Defined.

Lemma stored_payments_are_consistent_witness :
  PaymentTransaction.attractionId Scenario.bobTx < 5
  /\ PaymentTransaction.qrCodeData Scenario.bobTx
     = generateQRCodeData "" (PaymentTransaction.amount Scenario.bobTx)
         (PaymentTransaction.currency Scenario.bobTx).
Proof.
  assert (H : payments Scenario.paid !! "tx_17000000040000000000" = Some Scenario.bobTx)
    by (vm_compute; reflexivity).
  destruct (proj1 (stored_payments_are_consistent Scenario.paid reachable_sample_run)
              _ _ H) as (_ & H2 & H3 & _).
  split; [exact H2 | exact H3].
Defined.

Lemma profiles_record_no_activity_witness :
  exists p, users Scenario.paid !! Scenario.service = Some p
            /\ UserProfile.id p = Scenario.service
            /\ UserProfile.totalSpent p = 0.
Proof.
  assert (H : is_Some (users Scenario.paid !! Scenario.service))
    by (vm_compute; eexists; reflexivity).
  destruct H as [p Hp]. exists p. split; [exact Hp|].
  destruct (profiles_record_no_activity Scenario.paid Scenario.service p
              reachable_sample_run Hp) as (H1 & _ & _ & H4).
  split; [exact H1 | exact H4].
Defined.

Lemma getUserProfile_after_update_witness :
  caller Scenario.bob1 <> caller Scenario.alice3
  /\ exists p,
       getUserProfile Scenario.bob1
         (updateUserProfile Scenario.alice3 Scenario.reviewed "alice" "alice@example.org" "bs")
       = Some p
       /\ UserProfile.username p = "alice"
       /\ UserProfile.email p = "alice@example.org".
Proof.
  split; [discriminate|].
  destruct (getUserProfile_after_update Scenario.alice3 Scenario.bob1 Scenario.reviewed
              "alice" "alice@example.org" "bs" eq_refl) as (p & Hp & Hu & Hm & _).
  exists p. split; [exact Hp|]. split; [exact Hu | exact Hm].
Defined.

Lemma generatePaymentId_injective_witness :
  generatePaymentId Scenario.bob1 = generatePaymentId Scenario.carol1
  /\ generatePaymentId Scenario.bob1 <> generatePaymentId Scenario.later.
Proof.
  split.
  - apply (generatePaymentId_injective Scenario.bob1 Scenario.carol1); [simpl; lia..|].
    reflexivity.
  - intros H.
    apply (generatePaymentId_injective Scenario.bob1 Scenario.later) in H; [|simpl; lia..].
    discriminate H.
Defined.

Lemma search_by_unused_category_witness :
  @searchAttractions asciiCase Scenario.paid "lake" (Some "all") None = []
  /\ @searchAttractions asciiCase Scenario.paid "" (Some "shopping") (Some "en") = [].
Proof.
  split; apply (@search_by_unused_category asciiCase _ _ _ _ reachable_sample_run);
    simpl; intros H; repeat (destruct H as [H|H]; [discriminate H|]); exact H.
Defined.

